(** * The capture-and-infer polling loop of the NSF vision client

    A shallow embedding of the detection screens
    [frontend/app/(tabs)/index.tsx] and [frontend/app/index.tsx]:
    the values the JavaScript code computes with (strings, numbers, parsed
    JSON), the response parsing of [captureAndSend] and [handleSmartQuery],
    and the screen as a transition system over user and collaborator
    events.

    The component is a React function component.  Its state cells, refs,
    timers and suspended [async] calls are the fields of [Screen]; an
    [async] function is cut at its [await]s, and each piece runs when the
    event it waits for arrives.  A handler runs in the latest render: it
    reads the state of that render and queues updates, and React commits
    them, running the effects whose dependencies changed, before the next
    event is handled.  The closures of an effect keep the values of the
    render that scheduled the effect.  The collaborators are the camera
    ([takePictureAsync]), the backend ([fetch], [response.json()]), the
    speech module (whose calls return normally) and the timers. *)

From Stdlib Require Import List Bool Arith ZArith NArith QArith Lia.
From Stdlib Require Import String Ascii DecimalString.
From Stdlib Require Import Sorting.Sorted Sorting.Permutation.
Import ListNotations.

Set Implicit Arguments.

Local Open Scope list_scope.

(* ===================================================================== *)
(** ** JavaScript values *)
(* ===================================================================== *)

(** A JavaScript string is a sequence of UTF-16 code units. *)
Definition jsstring := list N.

(** The code units of an ASCII literal of the source. *)
Definition lit (s : string) : jsstring :=
  map N_of_ascii (list_ascii_of_string s).

(** [a === b] on strings. *)
Fixpoint jsstring_eqb (a b : jsstring) : bool :=
  match a, b with
  | [], [] => true
  | x :: a', y :: b' => N.eqb x y && jsstring_eqb a' b'
  | _, _ => false
  end.

(** White space and line terminators, the code units [String.prototype.trim]
    strips: TAB, LF, VT, FF, CR, SPACE, NBSP, U+1680, U+2000..U+200A,
    U+2028, U+2029, U+202F, U+205F, U+3000 and U+FEFF. *)
Definition isWhiteSpace (c : N) : bool :=
  ((9 <=? c) && (c <=? 13) || (c =? 32) || (c =? 160) || (c =? 5760)
   || (8192 <=? c) && (c <=? 8202) || (c =? 8232) || (c =? 8233)
   || (c =? 8239) || (c =? 8287) || (c =? 12288) || (c =? 65279))%N.

(** [s.trimStart()] and [s.trimEnd()] *)
Fixpoint trimStart (s : jsstring) : jsstring :=
  match s with
  | c :: s' => if isWhiteSpace c then trimStart s' else s
  | [] => []
  end.

Definition trimEnd (s : jsstring) : jsstring := rev (trimStart (rev s)).

(** [s.trim()] *)
Definition trim (s : jsstring) : jsstring := trimEnd (trimStart s).

(** A JavaScript number.  [Fin q] is the finite double whose exact value is
    [q] (the two zeros are not told apart: they compare equal and nothing
    here divides).  *)
Inductive number : Type :=
  | NaN
  | NegInf
  | Fin (q : Q)
  | PosInf.

(** [a - b].  On finite doubles the rounded difference has the sign of the
    exact one (gradual underflow keeps a non-zero difference non-zero and
    overflow keeps its sign), and only the sign of a difference is ever
    looked at, by [sort]. *)
Definition number_sub (a b : number) : number :=
  match a, b with
  | NaN, _ | _, NaN => NaN
  | PosInf, PosInf => NaN
  | NegInf, NegInf => NaN
  | PosInf, _ => PosInf
  | NegInf, _ => NegInf
  | Fin _, PosInf => NegInf
  | Fin _, NegInf => PosInf
  | Fin x, Fin y => Fin (x - y)
  end.

(** [v > 0] *)
Definition positive_number (v : number) : bool :=
  match v with
  | PosInf => true
  | Fin q => negb (Qle_bool q 0)
  | _ => false
  end.

(** [a <= b], false as soon as one side is [NaN]. *)
Definition number_leb (a b : number) : bool :=
  match a, b with
  | NaN, _ | _, NaN => false
  | NegInf, _ => true
  | _, PosInf => true
  | Fin x, Fin y => Qle_bool x y
  | _, _ => false
  end.

(** [Number.isNaN(v)] *)
Definition is_NaN (v : number) : bool :=
  match v with NaN => true | _ => false end.

(** The value [response.json()] resolves to.  An object is the list of its
    own properties, the first binding of a key being the property.  A
    parsed number is never [NaN]: no body parses to a [JNum NaN]. *)
#[warnings="-register-all"]
Inductive json : Type :=
  | JNull
  | JBool (b : bool)
  | JNum (n : number)
  | JStr (s : jsstring)
  | JArr (items : list json)
  | JObj (props : list (jsstring * json)).

(** The own property [k] of an object, if it has one. *)
Fixpoint assoc (k : jsstring) (props : list (jsstring * json)) : option json :=
  match props with
  | [] => None
  | (k', v) :: rest => if jsstring_eqb k k' then Some v else assoc k rest
  end.

(** [v.k] for a value that is not [null], and [v?.k] for any value: [None]
    is [undefined].  The keys read by the source ([objects], [alert_text],
    [answer_text], [label], [distance], [direction], [risk]) are properties
    of no prototype, so only an object's own properties can answer. *)
Definition member (v : json) (k : jsstring) : option json :=
  match v with
  | JObj props => assoc k props
  | _ => None
  end.

(** [x ?? d] *)
Definition nullish (x : option json) (d : json) : json :=
  match x with
  | None | Some JNull => d
  | Some v => v
  end.

(** [!v] is false, that is, [v] is truthy. *)
Definition truthy (v : json) : bool :=
  match v with
  | JNull => false
  | JBool b => b
  | JNum NaN => false
  | JNum (Fin q) => negb (Qeq_bool q 0)
  | JNum _ => true
  | JStr s => match s with [] => false | _ => true end
  | JArr _ | JObj _ => true
  end.

(** [a || b] on strings: the empty string is the only falsy one. *)
Definition or_else (a b : jsstring) : jsstring :=
  match a with [] => b | _ => a end.

(** How an evaluation ends: with a value, or by throwing.  Of a thrown
    value only [err?.message] is ever read; [None] is a thrown value
    without one. *)
Inductive outcome (A : Type) : Type :=
  | Ok (a : A)
  | Throw (message : option jsstring).
Arguments Ok {A} a.
Arguments Throw {A} message.

Definition bind {A B : Type} (x : outcome A) (f : A -> outcome B) : outcome B :=
  match x with
  | Ok a => f a
  | Throw m => Throw m
  end.

Notation "x <- e ;; k" := (bind e (fun x => k))
  (at level 61, e at next level, right associativity).

(** What the source takes from the JavaScript engine without defining it:
    the numeric value of a string, the string an array converts to (the
    conversion throws when an element cannot be converted), and the
    messages of the [TypeError]s the engine raises. *)
Record Engine : Type := {
  StringToNumber : jsstring -> number;
  ArrayToString : list json -> outcome jsstring;
  nullReadMessage : jsstring -> jsstring;
  notCallableMessage : jsstring -> jsstring;
  noPrimitiveMessage : jsstring
}.

(** [Number(v)].  A plain object converts through [Object.prototype.toString]
    to a string that is no number; one whose own [toString] property hides
    that method (a parsed value is never callable) cannot be converted. *)
Definition Number (E : Engine) (v : json) : outcome number :=
  match v with
  | JNull => Ok (Fin 0)
  | JBool true => Ok (Fin 1)
  | JBool false => Ok (Fin 0)
  | JNum n => Ok n
  | JStr s => Ok (StringToNumber E s)
  | JArr items => s <- ArrayToString E items ;; Ok (StringToNumber E s)
  | JObj props =>
      match assoc (lit "toString") props with
      | Some _ => Throw (Some (noPrimitiveMessage E))
      | None => Ok NaN
      end
  end.

(** [Array.prototype.sort(cmp)]: a comparator result that is [NaN] counts
    as [+0]; the sort is stable.  It is modelled by the stable insertion
    sort: an element moves behind another only when the comparator says
    it is greater. *)
Section Sort.
Variable A : Type.
Variable cmp : A -> A -> number.

Fixpoint insert (x : A) (l : list A) : list A :=
  match l with
  | [] => [x]
  | y :: l' =>
      if positive_number (cmp x y) then y :: insert x l' else x :: l
  end.

Fixpoint sort (l : list A) : list A :=
  match l with
  | [] => []
  | x :: l' => insert x (sort l')
  end.
End Sort.

(* ===================================================================== *)
(** ** Detections and response parsing *)
(* ===================================================================== *)

(** [type Detection].  The three text fields hold whatever the backend
    sent when it sent something: the declared type [string] is not
    checked at run time. *)
Record Detection : Type := {
  label : json;
  distance : number;
  direction : json;
  risk : json
}.

(** The callback of [.map] in [captureAndSend] and [handleSmartQuery].  Only
    the conversion of the distance can throw, so it is written first. *)
Definition toDetection (E : Engine) (item : json) : outcome Detection :=
  d <- Number E (nullish (member item (lit "distance")) (JNum (Fin 0))) ;;
  Ok {| label := nullish (member item (lit "label")) (JStr (lit "Unknown"));
        distance := d;
        direction := nullish (member item (lit "direction")) (JStr (lit "center"));
        risk := nullish (member item (lit "risk")) (JStr (lit "clear")) |}.

(** [Array.prototype.map] with a callback that may throw. *)
Fixpoint mapM {A B : Type} (f : A -> outcome B) (l : list A) : outcome (list B) :=
  match l with
  | [] => Ok []
  | x :: l' => y <- f x ;; ys <- mapM f l' ;; Ok (y :: ys)
  end.

(** [(a, b) => a.distance - b.distance] *)
Definition byDistance (a b : Detection) : number :=
  number_sub (distance a) (distance b).

(** [Array.isArray(json.objects) ? json.objects : []], for a [json] that
    is not [null]. *)
Definition objectsOf (j : json) : list json :=
  match member j (lit "objects") with
  | Some (JArr items) => items
  | _ => []
  end.

(** [parsedDetections].  Reading [json.objects] of [null] throws. *)
Definition parsedDetections (E : Engine) (j : json) : outcome (list Detection) :=
  match j with
  | JNull => Throw (Some (nullReadMessage E (lit "objects")))
  | _ =>
      ds <- mapM (toDetection E) (objectsOf j) ;;
      Ok (sort byDistance ds)
  end.

(** The fixed prompt of [handleSmartQuery]. *)
Definition defaultQuestion : jsstring :=
  lit "What important things are in front of me and where are they?".

(** [questionToSend] *)
Definition questionToSend (userQuestion : jsstring) : jsstring :=
  or_else (trim userQuestion) defaultQuestion.

(* ===================================================================== *)
(** ** The screen as a transition system *)
(* ===================================================================== *)

(** The two screens: [app/(tabs)/index.tsx] has the polling loop alone,
    [app/index.tsx] adds the smart query and its question field. *)
Inductive ScreenFile : Type := TabsIndex | AppIndex.

(** The [useState] cells the loop reads and writes (the spec's LoopState:
    active, inFlight, lastError, lastDetections, lastAlertText). *)
Record LoopState : Type := {
  isDetecting : bool;
  isSending : bool;
  error : jsstring;
  detections : list Detection;
  alertText : json
}.

(** The two paths of the backend ([BACKEND_URL] of [config.ts] is the
    [/detect/] path too). *)
Inductive Endpoint : Type := DETECT_URL | SMART_QUERY_URL.

(** The multipart body handed to [fetch]. *)
Record FormData : Type := {
  file_uri : jsstring;
  question : option jsstring
}.

(** An asynchronous call that went past its guard.  [captureAndSend] is
    only ever called by [runCycle], and the call remembers which run of the
    loop effect that [runCycle] belongs to; [handleSmartQuery] remembers
    the [userQuestion] of the render whose button was pressed. *)
Inductive Invocation : Type :=
  | CaptureAndSend (eff : nat)
  | HandleSmartQuery (asked : jsstring).

(** The [await] a call is suspended at. *)
Inductive Stage : Type := TakingPicture | Fetching | ReadingJson.

(** A suspended call. *)
Record Task : Type := {
  invocation : Invocation;
  stage : Stage
}.

(** One run of the loop effect: the [isSending] and [isDetecting] its
    closures captured from the render that scheduled it, and its
    [cancelled] variable. *)
Record EffectRun : Type := {
  eff_isSending : bool;
  eff_isDetecting : bool;
  cancelled : bool
}.

(** A pending [setTimeout(runCycle, delay)]: the identifier it returned
    and the run of the loop effect whose [runCycle] it will call. *)
Record Timer : Type := {
  timer_id : nat;
  timer_delay : N;
  timer_effect : nat
}.

(** Calls made to the collaborators, newest first. *)
Inductive Call : Type :=
  | TakePicture (by_ : Invocation)
  | Fetch (url : Endpoint) (body : FormData)
  | SpeechStop
  | SpeechSpeak (text : json)
  | SetTimeout (id : nat) (delay : N)
  | ClearTimeout (id : nat).

(** The whole screen.  [cameraRef] is whether [cameraRef.current] holds a
    node, which is exactly when the main view (camera and buttons) is
    rendered; [deps] are the dependencies the loop effect last ran with and
    [cleanup] the run whose cleanup function React holds; [effects] lists
    every run so far; [timers] are the pending timeouts and [tasks] the
    suspended calls. *)
Record Screen : Type := {
  loop : LoopState;
  userQuestion : jsstring;
  granted : bool;
  cameraRef : bool;
  detectionLoopRef : option nat;
  deps : bool * bool;
  cleanup : option nat;
  effects : list EffectRun;
  timers : list Timer;
  nextTimer : nat;
  tasks : list Task;
  calls : list Call
}.

(** The state after the first render: nothing granted yet, nothing running.
    Timer identifiers start at 1, so a stored identifier is truthy. *)
Definition initial : Screen :=
  {| loop := {| isDetecting := false; isSending := false; error := [];
                detections := []; alertText := JStr [] |};
     userQuestion := [];
     granted := false;
     cameraRef := false;
     detectionLoopRef := None;
     deps := (false, false);
     cleanup := None;
     effects := [];
     timers := [];
     nextTimer := 1;
     tasks := [];
     calls := [] |}.

(** *** Field updates *)

Definition with_loop (f : LoopState -> LoopState) (s : Screen) : Screen :=
  {| loop := f (loop s); userQuestion := userQuestion s; granted := granted s;
     cameraRef := cameraRef s; detectionLoopRef := detectionLoopRef s;
     deps := deps s; cleanup := cleanup s; effects := effects s;
     timers := timers s; nextTimer := nextTimer s; tasks := tasks s;
     calls := calls s |}.

Definition setIsDetecting (b : bool) : Screen -> Screen :=
  with_loop (fun l => {| isDetecting := b; isSending := isSending l;
     error := error l; detections := detections l; alertText := alertText l |}).

Definition setIsSending (b : bool) : Screen -> Screen :=
  with_loop (fun l => {| isDetecting := isDetecting l; isSending := b;
     error := error l; detections := detections l; alertText := alertText l |}).

Definition setError (e : jsstring) : Screen -> Screen :=
  with_loop (fun l => {| isDetecting := isDetecting l; isSending := isSending l;
     error := e; detections := detections l; alertText := alertText l |}).

Definition setDetections (d : list Detection) : Screen -> Screen :=
  with_loop (fun l => {| isDetecting := isDetecting l; isSending := isSending l;
     error := error l; detections := d; alertText := alertText l |}).

Definition setAlertText (a : json) : Screen -> Screen :=
  with_loop (fun l => {| isDetecting := isDetecting l; isSending := isSending l;
     error := error l; detections := detections l; alertText := a |}).

Definition setUserQuestion (q : jsstring) (s : Screen) : Screen :=
  {| loop := loop s; userQuestion := q; granted := granted s;
     cameraRef := cameraRef s; detectionLoopRef := detectionLoopRef s;
     deps := deps s; cleanup := cleanup s; effects := effects s;
     timers := timers s; nextTimer := nextTimer s; tasks := tasks s;
     calls := calls s |}.

Definition set_view (g c : bool) (s : Screen) : Screen :=
  {| loop := loop s; userQuestion := userQuestion s; granted := g;
     cameraRef := c; detectionLoopRef := detectionLoopRef s;
     deps := deps s; cleanup := cleanup s; effects := effects s;
     timers := timers s; nextTimer := nextTimer s; tasks := tasks s;
     calls := calls s |}.

Definition set_effect (d : bool * bool) (c : option nat) (es : list EffectRun)
    (s : Screen) : Screen :=
  {| loop := loop s; userQuestion := userQuestion s; granted := granted s;
     cameraRef := cameraRef s; detectionLoopRef := detectionLoopRef s;
     deps := d; cleanup := c; effects := es;
     timers := timers s; nextTimer := nextTimer s; tasks := tasks s;
     calls := calls s |}.

Definition set_timers (r : option nat) (ts : list Timer) (n : nat)
    (s : Screen) : Screen :=
  {| loop := loop s; userQuestion := userQuestion s; granted := granted s;
     cameraRef := cameraRef s; detectionLoopRef := r;
     deps := deps s; cleanup := cleanup s; effects := effects s;
     timers := ts; nextTimer := n; tasks := tasks s;
     calls := calls s |}.

Definition set_tasks (ts : list Task) (s : Screen) : Screen :=
  {| loop := loop s; userQuestion := userQuestion s; granted := granted s;
     cameraRef := cameraRef s; detectionLoopRef := detectionLoopRef s;
     deps := deps s; cleanup := cleanup s; effects := effects s;
     timers := timers s; nextTimer := nextTimer s; tasks := ts;
     calls := calls s |}.

Definition call (c : Call) (s : Screen) : Screen :=
  {| loop := loop s; userQuestion := userQuestion s; granted := granted s;
     cameraRef := cameraRef s; detectionLoopRef := detectionLoopRef s;
     deps := deps s; cleanup := cleanup s; effects := effects s;
     timers := timers s; nextTimer := nextTimer s; tasks := tasks s;
     calls := c :: calls s |}.

(* ===================================================================== *)
(** *** Events and transitions *)
(* ===================================================================== *)

(** How a promise of a collaborator settles. *)
Inductive Settled (A : Type) : Type :=
  | Resolved (a : A)
  | Rejected (message : option jsstring).
Arguments Resolved {A} a.
Arguments Rejected {A} message.

(** What happens to the screen: the user presses a button or edits the
    question, the permission hook or the camera view changes, a pending
    timeout fires, or the promise the [i]-th suspended call awaits settles
    (a picture with its uri, a response with its status, a body with its
    parsed value). *)
Inductive Event : Type :=
  | PressToggle
  | PressSmartQuery
  | ChangeQuestion (text : jsstring)
  | Permission (g : bool)
  | CameraRef (node : bool)
  | TimerFires (id : nat)
  | PictureSettled (i : nat) (r : Settled jsstring)
  | FetchSettled (i : nat) (r : Settled N)
  | JsonSettled (i : nat) (r : Settled json).

(** [response.ok] *)
Definition ok (status : N) : bool := ((200 <=? status) && (status <=? 299))%N.

(** The decimal digits of a status code. *)
Definition decimal (n : N) : jsstring :=
  lit (NilEmpty.string_of_uint (N.to_uint n)).

(** [`Server error: ${response.status}`] *)
Definition serverError (status : N) : jsstring :=
  lit "Server error: " ++ decimal status.

(** [(err as Error)?.message ?? 'Unable to contact backend.'] *)
Definition messageOf (message : option jsstring) : jsstring :=
  match message with
  | Some m => m
  | None => lit "Unable to contact backend."
  end.

(** Statements in the order of the source: [s |> f |> g] is [g (f s)]. *)
Notation "s |> f" := (f s) (at level 45, left associativity, only parsing).

(** [speakAlert] *)
Definition speakAlert (text : json) (s : Screen) : Screen :=
  if negb (truthy text) then s
  else s |> call SpeechStop |> call (SpeechSpeak text).

(** The list without its [i]-th element, and with [y] in its place. *)
Fixpoint remove_nth {A : Type} (i : nat) (l : list A) : list A :=
  match i, l with
  | _, [] => []
  | O, _ :: l' => l'
  | S i', x :: l' => x :: remove_nth i' l'
  end.

Fixpoint replace_nth {A : Type} (i : nat) (y : A) (l : list A) : list A :=
  match i, l with
  | _, [] => []
  | O, _ :: l' => y :: l'
  | S i', x :: l' => x :: replace_nth i' y l'
  end.

(** The timeout [t] is the one [setTimeout] named [id]. *)
Definition timer_is (id : nat) (t : Timer) : bool := Nat.eqb (timer_id t) id.

(** [detectionLoopRef.current = setTimeout(runCycle, 1500)] in the run [eff]. *)
Definition armTimer (eff : nat) (s : Screen) : Screen :=
  let id := nextTimer s in
  let t := {| timer_id := id; timer_delay := 1500; timer_effect := eff |} in
  s |> set_timers (Some id) (timers s ++ [t]) (S id)
    |> call (SetTimeout id 1500).

(** [if (detectionLoopRef.current) { clearTimeout(...); ... = null }] *)
Definition clearLoopTimer (s : Screen) : Screen :=
  match detectionLoopRef s with
  | Some id =>
      s |> set_timers None (filter (fun t => negb (timer_is id t)) (timers s))
             (nextTimer s)
        |> call (ClearTimeout id)
  | None => s
  end.

(** [runCycle] from [await captureAndSend()] on: unless the run was
    cancelled (or captured [isDetecting = false]) it arms the timeout. *)
Definition resumeCycle (eff : nat) (s : Screen) : Screen :=
  match nth_error (effects s) eff with
  | Some e =>
      if cancelled e || negb (eff_isDetecting e) then s else armTimer eff s
  | None => s
  end.

(** A call goes past its guard: [setError('')], [setIsSending(true)] and
    the call suspends on [await cameraRef.current.takePictureAsync(...)]. *)
Definition suspend (inv : Invocation) (s : Screen) : Screen :=
  s |> setError [] |> setIsSending true
    |> set_tasks (tasks s ++ [{| invocation := inv; stage := TakingPicture |}])
    |> call (TakePicture inv).

(** [captureAndSend] up to its first [await], as the [runCycle] of the run
    [eff] calls it: [None] when it returns at its guard.  The guard reads
    [cameraRef.current] and the [isSending] of the render that scheduled
    the run, which the closure captured. *)
Definition captureAndSend (eff : nat) (closure : EffectRun) (s : Screen)
    : option Screen :=
  if negb (cameraRef s) || eff_isSending closure then None
  else Some (suspend (CaptureAndSend eff) s).

(** [runCycle] up to the first suspension. *)
Definition runCycle (eff : nat) (s : Screen) : Screen :=
  match nth_error (effects s) eff with
  | Some e =>
      if cancelled e then s
      else match captureAndSend eff e s with
           | Some s' => s'
           | None => resumeCycle eff s
           end
  | None => s
  end.

(** [handleSmartQuery] up to its first [await]; the button calls the
    handler of the latest render, which sees the current [isSending] and
    [userQuestion]. *)
Definition handleSmartQuery (s : Screen) : Screen :=
  if negb (cameraRef s) || isSending (loop s) then s
  else suspend (HandleSmartQuery (userQuestion s)) s.

(** The end of the [i]-th call: [catch] when something was thrown,
    [finally], and the caller goes on. *)
Definition finish (i : nat) (inv : Invocation) (thrown : option (option jsstring))
    (s : Screen) : Screen :=
  let s := match thrown with
           | Some m => setError (messageOf m) s
           | None => s
           end in
  let s := s |> setIsSending false |> set_tasks (remove_nth i (tasks s)) in
  match inv with
  | CaptureAndSend eff => resumeCycle eff s
  | HandleSmartQuery _ => s
  end.

(** The url each function posts to. *)
Definition endpoint (inv : Invocation) : Endpoint :=
  match inv with
  | CaptureAndSend _ => DETECT_URL
  | HandleSmartQuery _ => SMART_QUERY_URL
  end.

(** The form data each function builds from the picture. *)
Definition formData (inv : Invocation) (uri : jsstring) : FormData :=
  match inv with
  | CaptureAndSend _ => {| file_uri := uri; question := None |}
  | HandleSmartQuery q =>
      {| file_uri := uri; question := Some (questionToSend q) |}
  end.

(** The [i]-th call suspends on its next [await]. *)
Definition advance (i : nat) (inv : Invocation) (st : Stage) (s : Screen) : Screen :=
  set_tasks (replace_nth i {| invocation := inv; stage := st |} (tasks s)) s.

(** The [try] block after [await response.json()]: the state it leaves and
    what it threw, if it did.  What was set before a throw stays set. *)
Definition applyResult (E : Engine) (inv : Invocation) (j : json)
    (s : Screen) : Screen * option (option jsstring) :=
  match parsedDetections E j with
  | Throw m => (s, Some m)
  | Ok ds =>
      let s := setDetections ds s in
      match inv with
      | CaptureAndSend _ =>
          let newAlert := nullish (member j (lit "alert_text")) (JStr []) in
          (s |> setAlertText newAlert |> speakAlert newAlert, None)
      | HandleSmartQuery q =>
          match nullish (member j (lit "answer_text")) (JStr []) with
          | JStr a =>
              let answer := trim a in
              let spokenText := or_else answer (questionToSend q) in
              (s |> setAlertText (JStr spokenText) |> speakAlert (JStr spokenText),
               None)
          | _ => (s, Some (Some (notCallableMessage E (lit "trim"))))
          end
      end
  end.

(** The [i]-th call goes on after [await takePictureAsync(...)]: it builds
    the form data and suspends on [fetch]; a rejection is caught. *)
Definition afterPicture (i : nat) (inv : Invocation) (r : Settled jsstring)
    (s : Screen) : Screen :=
  match r with
  | Resolved uri =>
      s |> call (Fetch (endpoint inv) (formData inv uri))
        |> advance i inv Fetching
  | Rejected m => finish i inv (Some m) s
  end.

(** The [i]-th call goes on after [await fetch(...)]: a status that is not
    2xx throws [Error(`Server error: ${response.status}`)], otherwise the
    call suspends on [response.json()]. *)
Definition afterFetch (i : nat) (inv : Invocation) (r : Settled N)
    (s : Screen) : Screen :=
  match r with
  | Resolved status =>
      if ok status then advance i inv ReadingJson s
      else finish i inv (Some (Some (serverError status))) s
  | Rejected m => finish i inv (Some m) s
  end.

(** The [i]-th call goes on after [await response.json()], to its end. *)
Definition afterJson (E : Engine) (i : nat) (inv : Invocation) (r : Settled json)
    (s : Screen) : Screen :=
  match r with
  | Resolved j =>
      let (s', thrown) := applyResult E inv j s in
      finish i inv thrown s'
  | Rejected m => finish i inv (Some m) s
  end.

(** The loop effect goes past its early return: a new run is recorded,
    with [let cancelled = false] and the [isSending] and [isDetecting] of
    this render in its closures, and [runCycle()] is called. *)
Definition startEffect (sending detecting : bool) (s : Screen) : Screen :=
  let eff := List.length (effects s) in
  let closure := {| eff_isSending := sending; eff_isDetecting := detecting;
                    cancelled := false |} in
  s |> set_effect (deps s) (Some eff) (effects s ++ [closure])
    |> runCycle eff.

(** The cleanup function of the previous run, when it returned one:
    [cancelled = true] and the timeout is cleared. *)
Definition runCleanup (s : Screen) : Screen :=
  match cleanup s with
  | Some eff =>
      let es := match nth_error (effects s) eff with
                | Some e => replace_nth eff
                    {| eff_isSending := eff_isSending e;
                       eff_isDetecting := eff_isDetecting e;
                       cancelled := true |} (effects s)
                | None => effects s
                end in
      s |> set_effect (deps s) None es |> clearLoopTimer
  | None => s
  end.

(** One commit: when [isDetecting] or [permission?.granted] differ from the
    dependencies of the last run, the cleanup runs, then the loop effect
    with the values of this render, and the effect that turns detection
    off without permission queues its [setIsDetecting(false)]. *)
Definition commit (s : Screen) : Screen :=
  let d := isDetecting (loop s) in
  let g := granted s in
  if Bool.eqb d (fst (deps s)) && Bool.eqb g (snd (deps s)) then s
  else
    let sending := isSending (loop s) in
    let s := runCleanup s in
    let s := set_effect (d, g) (cleanup s) (effects s) s in
    let s := if negb d || negb g then clearLoopTimer s
             else startEffect sending d s in
    if negb g && d then setIsDetecting false s else s.

(** React renders and commits until nothing is queued: the second commit
    serves the update queued by the first. *)
Definition flush (s : Screen) : Screen := commit (commit s).

(** The handler of an event, in the latest render.  The buttons and the
    question field exist while the main view is rendered, and there
    [permission.granted] holds, so [handleToggleDetection] is its last
    line. *)
Definition handle (E : Engine) (f : ScreenFile) (s : Screen) (e : Event) : Screen :=
  match e with
  | PressToggle =>
      if cameraRef s && granted s
         && negb (isSending (loop s) && negb (isDetecting (loop s)))
      then setIsDetecting (negb (isDetecting (loop s))) s
      else s
  | PressSmartQuery =>
      match f with
      | AppIndex =>
          if cameraRef s && granted s && negb (isSending (loop s))
          then handleSmartQuery s else s
      | TabsIndex => s
      end
  | ChangeQuestion q =>
      match f with
      | AppIndex =>
          if cameraRef s && granted s && negb (isSending (loop s))
          then setUserQuestion q s else s
      | TabsIndex => s
      end
  | Permission g => set_view g (g && cameraRef s) s
  | CameraRef node => set_view (granted s) (node && granted s) s
  | TimerFires id =>
      match find (timer_is id) (timers s) with
      | Some t =>
          runCycle (timer_effect t)
            (set_timers (detectionLoopRef s)
               (filter (fun t' => negb (timer_is id t')) (timers s))
               (nextTimer s) s)
      | None => s
      end
  | PictureSettled i r =>
      match nth_error (tasks s) i with
      | Some {| invocation := inv; stage := TakingPicture |} =>
          afterPicture i inv r s
      | _ => s
      end
  | FetchSettled i r =>
      match nth_error (tasks s) i with
      | Some {| invocation := inv; stage := Fetching |} =>
          afterFetch i inv r s
      | _ => s
      end
  | JsonSettled i r =>
      match nth_error (tasks s) i with
      | Some {| invocation := inv; stage := ReadingJson |} =>
          afterJson E i inv r s
      | _ => s
      end
  end.

(** One event: its handler, then the commits it causes. *)
Definition step (E : Engine) (f : ScreenFile) (s : Screen) (e : Event) : Screen :=
  flush (handle E f s e).

(** The screen after a sequence of events, from [s] and from the first
    render. *)
Definition run_from (E : Engine) (f : ScreenFile) (s : Screen)
    (trace : list Event) : Screen :=
  fold_left (step E f) trace s.

Definition run (E : Engine) (f : ScreenFile) (trace : list Event) : Screen :=
  run_from E f initial trace.

Local Open Scope nat_scope.

(* ===================================================================== *)
(** * Notions the properties are stated with *)
(* ===================================================================== *)

(** [a.distance <= b.distance]: what a list sorted non-decreasing in
    distance satisfies between neighbours. *)
Definition distance_le (a b : Detection) : Prop :=
  number_leb (distance a) (distance b) = true.

(** The calls of [captureAndSend] a run of the effect has suspended. *)
Definition is_cycle_of (eff : nat) (t : Task) : bool :=
  match invocation t with
  | CaptureAndSend e => Nat.eqb e eff
  | HandleSmartQuery _ => false
  end.

(** How many there are. *)
Definition cycles_of (eff : nat) (ts : list Task) : nat :=
  List.length (filter (is_cycle_of eff) ts).

(** Runs other than the one whose cleanup is pending are cancelled, that
    one is not and captured [isSending = false]; every pending timeout is
    the one [detectionLoopRef] names and belongs to that run. *)
Record Frame (s : Screen) : Prop := {
  frame_dead : forall k e,
    nth_error (effects s) k = Some e -> cleanup s <> Some k -> cancelled e = true;
  frame_live : forall eff,
    cleanup s = Some eff ->
    nth_error (effects s) eff =
      Some {| eff_isSending := false; eff_isDetecting := true; cancelled := false |};
  frame_timers : forall t,
    In t (timers s) ->
    detectionLoopRef s = Some (timer_id t) /\ cleanup s = Some (timer_effect t)
    /\ timer_delay t = 1500%N;
  frame_deps : cleanup s <> None <-> deps s = (true, true);
  frame_view : cameraRef s = true -> granted s = true;
  frame_tasks : forall t eff,
    In t (tasks s) -> invocation t = CaptureAndSend eff ->
    eff < List.length (effects s)
}.

(** The live run has [n] things in progress: its suspended call and its
    pending timeouts, counted together. *)
Definition Token (n : nat) (s : Screen) : Prop :=
  forall eff, cleanup s = Some eff ->
    cycles_of eff (tasks s) + List.length (timers s) = n.

(** Nothing is left for a commit to do. *)
Record Quiet (s : Screen) : Prop := {
  quiet_deps : deps s = (isDetecting (loop s), granted s);
  quiet_granted : isDetecting (loop s) = true -> granted s = true
}.

(** A commit that is about to start the loop finds nothing being sent. *)
Definition Ready (s : Screen) : Prop :=
  isDetecting (loop s) = true -> granted s = true -> deps s <> (true, true) ->
  isSending (loop s) = false.

(** What holds of both screens after every event. *)
Record Inv (s : Screen) : Prop := {
  inv_frame : Frame s;
  inv_token : Token 1 s;
  inv_quiet : Quiet s
}.

(** The pictures [captureAndSend] asked the camera for: each is the start
    of one cycle of the loop. *)
Definition is_cycle_capture (c : Call) : bool :=
  match c with
  | TakePicture (CaptureAndSend _) => true
  | _ => false
  end.

(** The cycles started so far. *)
Definition cycle_captures (s : Screen) : list Call :=
  filter is_cycle_capture (calls s).

(** The dependencies of the loop effect are those of its last run. *)
Definition guard_same (s : Screen) : bool :=
  Bool.eqb (isDetecting (loop s)) (fst (deps s))
  && Bool.eqb (granted s) (snd (deps s)).

(** At most one call is suspended; [isSending] says whether one is; while
    it is, no error is shown, and the call belongs to the live run of the
    loop effect if there is one. *)
Definition TabsInv (s : Screen) : Prop :=
  match tasks s with
  | [] => isSending (loop s) = false
  | [t] =>
      isSending (loop s) = true /\ error (loop s) = []
      /\ exists eff, invocation t = CaptureAndSend eff
           /\ forall eff', cleanup s = Some eff' -> eff' = eff
  | _ => False
  end.

(** The event hands a parsed body to a call. *)
Definition delivers_body (e : Event) : bool :=
  match e with
  | JsonSettled _ (Resolved _) => true
  | _ => false
  end.

(** The distance of an element converts to a number that is not [NaN]. *)
Definition converts (E : Engine) (item : json) : bool :=
  match Number E (nullish (member item (lit "distance")) (JNum (Fin 0))) with
  | Ok n => negb (is_NaN n)
  | Throw _ => false
  end.

(** The message with which an event makes the [i]-th call, suspended at
    [st], fail: the camera or the transport rejects, the status is not 2xx,
    or the body cannot be read. *)
Definition failure (st : Stage) (i : nat) (e : Event) : option jsstring :=
  match st, e with
  | TakingPicture, PictureSettled i' (Rejected m)
  | Fetching, FetchSettled i' (Rejected m)
  | ReadingJson, JsonSettled i' (Rejected m) =>
      if Nat.eqb i i' then Some (messageOf m) else None
  | Fetching, FetchSettled i' (Resolved status) =>
      if Nat.eqb i i' && negb (ok status) then Some (serverError status)
      else None
  | _, _ => None
  end.

(** A call is suspended. *)
Definition busy (s : Screen) : bool :=
  match tasks s with [] => false | _ => true end.

(** A call is suspended after each event of the trace. *)
Fixpoint stays_busy (E : Engine) (f : ScreenFile) (s : Screen)
    (trace : list Event) : bool :=
  match trace with
  | [] => true
  | e :: rest => busy (step E f s e) && stays_busy E f (step E f s e) rest
  end.

(** The events that call [runCycle]: a timeout that fires and, through
    the loop effect, the toggle button. *)
Definition invokes_cycle (e : Event) : bool :=
  match e with
  | PressToggle | TimerFires _ => true
  | _ => false
  end.

(* ===================================================================== *)
(** * Inputs the properties are tried on *)
(* ===================================================================== *)

(** An engine to run concrete traces with.  None of the traces below
    converts a string or an array to a number. *)
Definition engine : Engine :=
  {| StringToNumber := fun _ => NaN;
     ArrayToString := fun _ => Ok [];
     nullReadMessage := fun k => lit "Cannot read property '" ++ k ++ lit "' of null";
     notCallableMessage := fun k => lit "undefined is not a function";
     noPrimitiveMessage := lit "Cannot convert object to primitive value" |}.

(** The main view appears: permission is granted and the camera mounts. *)
Definition mounted : list Event := [Permission true; CameraRef true].

(** [{label:"Unknown", distance:0, direction:"center", risk:"clear"}] *)
Definition defaultDetection : Detection :=
  {| label := JStr (lit "Unknown"); distance := Fin 0;
     direction := JStr (lit "center"); risk := JStr (lit "clear") |}.

(** One poll cycle of the detection screen, up to the arrival of the body:
    start, picture, response with status 200. *)
Definition poll : list Event :=
  [PressToggle; PictureSettled 0 (Resolved (lit "file:///photo.jpg"));
   FetchSettled 0 (Resolved 200%N)].

(** [{"distance": n}] *)
Definition numbered (n : Q) : json := JObj [(lit "distance", JNum (Fin n))].

(** A body whose first object has an object for distance. *)
Definition unsortable : json :=
  JObj [(lit "objects",
         JArr [JObj [(lit "distance", JObj [])]; numbered 1])].

(** A first cycle that stores one detection, then a second one that
    receives [null] as its body. *)
Definition null_body : list Event :=
  mounted ++ poll
  ++ [JsonSettled 0 (Resolved (JObj [(lit "objects", JArr [JObj []])]));
      TimerFires 1; PictureSettled 0 (Resolved (lit "file:///photo2.jpg"));
      FetchSettled 0 (Resolved 200%N); JsonSettled 0 (Resolved JNull)].

(** A smart query with an empty question field, up to the arrival of the
    body. *)
Definition query : list Event :=
  [PressSmartQuery; PictureSettled 0 (Resolved (lit "file:///photo.jpg"));
   FetchSettled 0 (Resolved 200%N)].

(** A whole first cycle, which stores one detection and an alert. *)
Definition one_cycle : list Event :=
  mounted ++ poll
  ++ [JsonSettled 0 (Resolved (JObj [(lit "objects", JArr [JObj []]);
                                     (lit "alert_text", JStr (lit "Chair ahead"))]))].

(** A cycle completes and arms its timeout; the smart query is pressed
    during the wait. *)
Definition query_during_wait : list Event :=
  mounted ++ poll ++ [JsonSettled 0 (Resolved (JObj [])); PressSmartQuery].

(* ===================================================================== *)
(** * Properties *)
(* ===================================================================== *)

(** *** Proof automation *)

Ltac break_match :=
  repeat match goal with
  | |- context [match ?x with _ => _ end] =>
      lazymatch x with
      | context [match _ with _ => _ end] => fail
      | _ => destruct x; simpl
      end
  end.

Ltac unfold_pieces :=
  unfold handle, afterPicture, afterFetch, afterJson, finish, applyResult,
    speakAlert, handleSmartQuery, advance, commit, startEffect, runCleanup,
    clearLoopTimer, runCycle, captureAndSend, resumeCycle, suspend, armTimer.

(** ** Strings *)

Lemma trimStart_nil (s : jsstring) :
  trimStart s = [] <-> forallb isWhiteSpace s = true.
Proof.
  induction s as [|c s IH]; simpl.
  - tauto.
  - destruct (isWhiteSpace c); simpl.
    + exact IH.
    + split; discriminate.
Qed.

Lemma forallb_rev {A : Type} (p : A -> bool) (l : list A) :
  forallb p (rev l) = forallb p l.
Proof.
  induction l as [|x l IH]; simpl; trivial.
  rewrite forallb_app, IH; simpl.
  rewrite andb_true_r. apply andb_comm.
Qed.

Lemma trimStart_white (s : jsstring) :
  forallb isWhiteSpace (trimStart s) = forallb isWhiteSpace s.
Proof.
  induction s as [|c s IH]; simpl; trivial.
  destruct (isWhiteSpace c) eqn:Hc; simpl; [exact IH | now rewrite Hc].
Qed.

(** Trimming leaves nothing exactly when every code unit is white space. *)
Lemma trim_nil (s : jsstring) :
  trim s = [] <-> forallb isWhiteSpace s = true.
Proof.
  unfold trim, trimEnd.
  rewrite <- (trimStart_white s), <- (forallb_rev _ (trimStart s)),
    <- trimStart_nil.
  split; intros H.
  - apply (f_equal (@rev N)) in H. now rewrite rev_involutive in H.
  - now rewrite H.
Qed.

Lemma questionToSend_cases (q : jsstring) :
  questionToSend q =
    if forallb isWhiteSpace q then defaultQuestion else trim q.
Proof.
  unfold questionToSend, or_else.
  destruct (forallb isWhiteSpace q) eqn:Hq.
  - apply trim_nil in Hq. now rewrite Hq.
  - destruct (trim q) eqn:Ht; trivial.
    apply trim_nil in Ht. congruence.
Qed.

Lemma questionToSend_nonempty (q : jsstring) : questionToSend q <> [].
Proof.
  unfold questionToSend, or_else.
  destruct (trim q); discriminate.
Qed.

(** ** Numbers and sorting *)

Lemma positive_sub_le (a b : number) :
  positive_number (number_sub a b) = true -> number_leb b a = true.
Proof.
  destruct a as [| |x|], b as [| |y|]; simpl; try congruence.
  rewrite negb_true_iff. intros H.
  apply Qle_bool_iff. destruct (Qlt_le_dec x y) as [Hlt|Hle]; trivial.
  assert (Hc : Qle_bool (x - y) 0 = true).
  { apply Qle_bool_iff. apply Qlt_le_weak in Hlt.
    unfold Qle, Qminus, Qplus, Qopp in *. simpl in *. lia. }
  congruence.
Qed.

Lemma not_positive_sub_le (a b : number) :
  is_NaN a = false -> is_NaN b = false ->
  positive_number (number_sub a b) = false -> number_leb a b = true.
Proof.
  destruct a as [| |x|], b as [| |y|]; simpl; try congruence.
  rewrite negb_false_iff, !Qle_bool_iff. intros _ _ H.
  unfold Qle, Qminus, Qplus, Qopp in *. simpl in *. lia.
Qed.

Section SortProperties.
Variable A : Type.
Variable key : A -> number.
Let cmp (a b : A) : number := number_sub (key a) (key b).
Let le (a b : A) : Prop := number_leb (key a) (key b) = true.

Lemma insert_perm (x : A) (l : list A) : Permutation (x :: l) (insert cmp x l).
Proof.
  induction l as [|y l IH]; simpl; trivial.
  destruct (positive_number (cmp x y)); trivial.
  rewrite perm_swap. now apply perm_skip.
Qed.

Lemma sort_perm (l : list A) : Permutation l (sort cmp l).
Proof.
  induction l as [|x l IH]; simpl; trivial.
  rewrite <- insert_perm. now apply perm_skip.
Qed.

Lemma insert_hd (x y : A) (l : list A) :
  HdRel le y l -> le y x -> HdRel le y (insert cmp x l).
Proof.
  intros Hl Hx. destruct l as [|z l]; simpl.
  - now constructor.
  - destruct (positive_number (cmp x z)); constructor; trivial.
    now inversion Hl.
Qed.

Lemma insert_sorted (x : A) (l : list A) :
  is_NaN (key x) = false -> Forall (fun y => is_NaN (key y) = false) l ->
  Sorted le l -> Sorted le (insert cmp x l).
Proof.
  intros Hx Hl Hs. induction Hs as [|y l Hs IH Hhd]; simpl.
  - constructor; constructor.
  - inversion Hl as [|? ? Hy Hl']; subst.
    destruct (positive_number (cmp x y)) eqn:Hc.
    + constructor; [now apply IH|].
      apply insert_hd; trivial. now apply positive_sub_le.
    + constructor; [now constructor|].
      constructor. now apply not_positive_sub_le.
Qed.

Lemma sort_sorted (l : list A) :
  Forall (fun y => is_NaN (key y) = false) l -> Sorted le (sort cmp l).
Proof.
  induction 1 as [|x l Hx Hl IH]; simpl.
  - constructor.
  - apply insert_sorted; trivial.
    eapply Permutation_Forall; [apply sort_perm | exact Hl].
Qed.
End SortProperties.

(** ** Lists of suspended calls and effect runs *)

Lemma nth_error_replace_nth {A : Type} (l : list A) (i j : nat) (y : A) :
  nth_error (replace_nth i y l) j =
    if Nat.eqb i j then
      match nth_error l j with Some _ => Some y | None => None end
    else nth_error l j.
Proof.
  revert i j. induction l as [|x l IH]; intros [|i] [|j]; simpl; trivial.
  all: now destruct (Nat.eqb i j).
Qed.

Lemma length_replace_nth {A : Type} (l : list A) (i : nat) (y : A) :
  List.length (replace_nth i y l) = List.length l.
Proof.
  revert i. induction l as [|x l IH]; intros [|i]; simpl; auto.
Qed.

Lemma In_replace_nth {A : Type} (l : list A) (i : nat) (y x : A) :
  In x (replace_nth i y l) -> x = y \/ In x l.
Proof.
  revert i. induction l as [|z l IH]; intros [|i]; simpl; try tauto.
  - intros [H|H]; auto.
  - intros [H|H]; auto. destruct (IH _ H); auto.
Qed.

Lemma In_remove_nth {A : Type} (l : list A) (i : nat) (x : A) :
  In x (remove_nth i l) -> In x l.
Proof.
  revert i. induction l as [|z l IH]; intros [|i]; simpl; try tauto.
  intros [H|H]; eauto.
Qed.

Lemma filter_remove_nth {A : Type} (p : A -> bool) (l : list A) (i : nat) (x : A) :
  nth_error l i = Some x ->
  List.length (filter p l) =
    (if p x then 1 else 0) + List.length (filter p (remove_nth i l)).
Proof.
  revert i. induction l as [|z l IH]; intros i H.
  - now destruct i.
  - destruct i as [|i]; simpl in *.
    + injection H as ->. now destruct (p x).
    + specialize (IH _ H). destruct (p z); simpl; lia.
Qed.

Lemma filter_replace_nth {A : Type} (p : A -> bool) (l : list A) (i : nat) (x y : A) :
  nth_error l i = Some x -> p y = p x ->
  List.length (filter p (replace_nth i y l)) = List.length (filter p l).
Proof.
  revert i. induction l as [|z l IH]; intros i H Hp.
  - now destruct i.
  - destruct i as [|i]; simpl in *.
    + injection H as H. subst z. rewrite Hp. now destruct (p x).
    + specialize (IH _ H Hp). destruct (p z); simpl; auto.
Qed.

(** ** Invariants of both screens *)

(** *** What each piece of a transition preserves *)

Lemma Frame_with_loop (f : LoopState -> LoopState) (s : Screen) :
  Frame s -> Frame (with_loop f s).
Proof. intros [? ? ? ? ? ?]. now constructor. Qed.

Lemma Frame_call (c : Call) (s : Screen) : Frame s -> Frame (call c s).
Proof. intros [? ? ? ? ? ?]. now constructor. Qed.

Lemma Token_zero (s : Screen) (eff : nat) :
  Token 0 s -> cleanup s = Some eff ->
  timers s = [] /\ cycles_of eff (tasks s) = 0.
Proof.
  intros H Hc. specialize (H _ Hc).
  destruct (timers s); simpl in *; [split; trivial|]; lia.
Qed.

Lemma armTimer_inv (eff : nat) (s : Screen) :
  Frame s -> Token 0 s -> cleanup s = Some eff ->
  Frame (armTimer eff s) /\ Token 1 (armTimer eff s).
Proof.
  intros [Hd Hl Ht Hp Hv Hk] Htok Hc.
  destruct (Token_zero Htok Hc) as [Hts Hcy].
  split.
  - constructor; simpl; trivial.
    rewrite Hts. simpl. intros t [<-|[]]. simpl. auto.
  - intros eff' Hc'. simpl in *. rewrite Hts. simpl.
    assert (eff' = eff) by congruence. subst. lia.
Qed.

Lemma resumeCycle_live (eff : nat) (s : Screen) :
  Frame s -> cleanup s = Some eff -> resumeCycle eff s = armTimer eff s.
Proof.
  intros F Hc. unfold resumeCycle. now rewrite (frame_live F Hc).
Qed.

Lemma resumeCycle_dead (eff : nat) (s : Screen) :
  Frame s -> cleanup s <> Some eff -> resumeCycle eff s = s.
Proof.
  intros F Hc. unfold resumeCycle.
  destruct (nth_error (effects s) eff) as [e|] eqn:He; trivial.
  now rewrite (frame_dead F He Hc).
Qed.

Lemma cycles_of_app (eff : nat) (ts us : list Task) :
  cycles_of eff (ts ++ us) = cycles_of eff ts + cycles_of eff us.
Proof. unfold cycles_of. now rewrite filter_app, length_app. Qed.

Lemma suspend_cycle_inv (eff : nat) (s : Screen) :
  Frame s -> Token 0 s -> cleanup s = Some eff ->
  Frame (suspend (CaptureAndSend eff) s)
  /\ Token 1 (suspend (CaptureAndSend eff) s).
Proof.
  intros F Htok Hc.
  destruct (Token_zero Htok Hc) as [Hts Hcy].
  pose proof (frame_live F Hc) as Hlive.
  destruct F as [Hd Hl Ht Hp Hv Hk].
  split.
  - constructor; simpl; trivial.
    intros t e [Hin|[<-|[]]]%in_app_or; simpl; eauto.
    intros [= <-]. apply nth_error_Some. congruence.
  - intros eff' Hc'. simpl in *. rewrite Hts, cycles_of_app. simpl.
    assert (eff' = eff) by congruence. subst. rewrite Hcy.
    unfold cycles_of, is_cycle_of. simpl. now rewrite Nat.eqb_refl.
Qed.

Lemma suspend_query_inv n (q : jsstring) (s : Screen) :
  Frame s -> Token n s ->
  Frame (suspend (HandleSmartQuery q) s)
  /\ Token n (suspend (HandleSmartQuery q) s).
Proof.
  intros [Hd Hl Ht Hp Hv Hk] Htok. split.
  - constructor; simpl; trivial.
    intros t e [Hin|[<-|[]]]%in_app_or; simpl; eauto. discriminate.
  - intros eff Hc. simpl in *. rewrite cycles_of_app. simpl.
    rewrite <- (Htok _ Hc). unfold cycles_of at 2. simpl. lia.
Qed.

Lemma runCycle_inv (eff : nat) (s : Screen) :
  Frame s -> Token 0 s -> cleanup s = Some eff ->
  Frame (runCycle eff s) /\ Token 1 (runCycle eff s).
Proof.
  intros F Htok Hc. unfold runCycle, captureAndSend.
  rewrite (frame_live F Hc). simpl.
  destruct (negb (cameraRef s) || false).
  - rewrite resumeCycle_live; trivial. now apply armTimer_inv.
  - now apply suspend_cycle_inv.
Qed.

Lemma Frame_fewer_tasks (ts : list Task) (s : Screen) :
  (forall t, In t ts -> In t (tasks s)) -> Frame s -> Frame (set_tasks ts s).
Proof.
  intros Hsub [Hd Hl Ht Hp Hv Hk]. constructor; simpl; trivial.
  intros t e Hin. apply Hk. now apply Hsub.
Qed.

Lemma finish_inv (i : nat) (t : Task) (thrown : option (option jsstring))
    (s : Screen) :
  Frame s -> Token 1 s -> nth_error (tasks s) i = Some t ->
  Frame (finish i (invocation t) thrown s)
  /\ Token 1 (finish i (invocation t) thrown s).
Proof.
  intros F Htok Hi. unfold finish.
  set (s1 := match thrown with
             | Some m => setError (messageOf m) s
             | None => s
             end).
  set (s2 := set_tasks _ _).
  assert (F2 : Frame s2).
  { unfold s2. apply Frame_fewer_tasks.
    - intros x Hx. simpl. now apply In_remove_nth in Hx.
    - apply Frame_with_loop. unfold s1.
      destruct thrown; trivial. now apply Frame_with_loop. }
  assert (Hts : tasks s2 = remove_nth i (tasks s)).
  { unfold s2, s1. now destruct thrown. }
  assert (Hcl : cleanup s2 = cleanup s).
  { unfold s2, s1. now destruct thrown. }
  assert (Htm : timers s2 = timers s).
  { unfold s2, s1. now destruct thrown. }
  assert (Hcount : forall eff,
    cycles_of eff (tasks s) =
      (if is_cycle_of eff t then 1 else 0) + cycles_of eff (tasks s2)).
  { intros eff. rewrite Hts. now apply filter_remove_nth. }
  destruct (invocation t) as [eff|q] eqn:Hinv.
  - destruct (cleanup s) as [c|] eqn:Hc.
    + destruct (Nat.eq_dec c eff) as [->|Hne].
      * rewrite resumeCycle_live by congruence.
        apply armTimer_inv; trivial.
        intros eff' Hc'. rewrite Hcl in Hc'. injection Hc' as <-.
        specialize (Htok _ Hc). rewrite Hcount in Htok.
        unfold is_cycle_of in Htok. rewrite Hinv, Nat.eqb_refl in Htok.
        rewrite Htm. lia.
      * rewrite resumeCycle_dead by congruence. split; trivial.
        intros eff' Hc'. rewrite Hcl in Hc'. injection Hc' as <-.
        specialize (Htok _ Hc). rewrite Hcount in Htok.
        unfold is_cycle_of in Htok. rewrite Hinv in Htok.
        apply Nat.neq_sym, Nat.eqb_neq in Hne. rewrite Hne in Htok.
        now rewrite Htm.
    + rewrite resumeCycle_dead by congruence. split; trivial.
      intros eff' Hc'. congruence.
  - split; trivial.
    intros eff' Hc'. rewrite Hcl in Hc'.
    specialize (Htok _ Hc'). rewrite Hcount in Htok.
    unfold is_cycle_of in Htok. rewrite Hinv in Htok.
    now rewrite Htm.
Qed.

Lemma advance_inv n (i : nat) (t : Task) (st : Stage) (s : Screen) :
  Frame s -> Token n s -> nth_error (tasks s) i = Some t ->
  Frame (advance i (invocation t) st s)
  /\ Token n (advance i (invocation t) st s).
Proof.
  intros F Htok Hi. unfold advance. split.
  - destruct F as [Hd Hl Ht Hp Hv Hk]. constructor; simpl; trivial.
    intros x e [->|Hin]%In_replace_nth; simpl; eauto.
    apply Hk. eapply nth_error_In; eauto.
  - intros eff Hc. simpl in *. rewrite <- (Htok _ Hc). f_equal.
    unfold cycles_of. eapply filter_replace_nth; eauto.
Qed.

Lemma speakAlert_frame (text : json) (s : Screen) :
  Frame s -> Frame (speakAlert text s).
Proof.
  intros F. unfold speakAlert. destruct (negb (truthy text)); trivial.
  now repeat apply Frame_call.
Qed.

Lemma applyResult_inv n (E : Engine) (inv : Invocation) (j : json) (s : Screen) :
  Frame s -> Token n s ->
  Frame (fst (applyResult E inv j s)) /\ Token n (fst (applyResult E inv j s))
  /\ tasks (fst (applyResult E inv j s)) = tasks s.
Proof.
  intros F Htok. unfold applyResult.
  destruct (parsedDetections E j) as [ds|m]; simpl; auto.
  assert (Hspeak : forall text a,
    let s' := speakAlert text (setAlertText a (setDetections ds s)) in
    Frame s' /\ Token n s' /\ tasks s' = tasks s).
  { intros text a. simpl. split; [|split].
    - apply speakAlert_frame. now repeat apply Frame_with_loop.
    - unfold speakAlert. destruct (negb _); exact Htok.
    - unfold speakAlert. now destruct (negb _). }
  destruct inv as [eff|q]; [apply Hspeak|].
  destruct (nullish _ _); simpl; try apply Hspeak;
    (split; [now repeat apply Frame_with_loop | split; [exact Htok | reflexivity]]).
Qed.

Lemma filter_none {A : Type} (p : A -> bool) (l : list A) :
  (forall x, In x l -> p x = false) -> filter p l = [].
Proof.
  induction l as [|x l IH]; simpl; trivial.
  intros H. rewrite (H x) by auto. apply IH. auto.
Qed.

(** A pending timeout that fires is the only one pending. *)
Lemma fired_timer (id : nat) (t : Timer) (s : Screen) :
  Frame s -> find (timer_is id) (timers s) = Some t ->
  filter (fun t' => negb (timer_is id t')) (timers s) = []
  /\ cleanup s = Some (timer_effect t) /\ timers s <> [].
Proof.
  intros F Hf. apply find_some in Hf as [Hin Hid].
  destruct (frame_timers F _ Hin) as (Hr & Hc & _).
  repeat split; trivial.
  - apply filter_none. intros t' Hin'.
    destruct (frame_timers F _ Hin') as (Hr' & _ & _).
    unfold timer_is in *. apply Nat.eqb_eq in Hid.
    assert (timer_id t' = id) as -> by congruence.
    now rewrite Nat.eqb_refl.
  - intros Hnil. rewrite Hnil in Hin. destruct Hin.
Qed.

Lemma handle_inv (E : Engine) (f : ScreenFile) (s : Screen) (e : Event) :
  Frame s -> Token 1 s ->
  Frame (handle E f s e) /\ Token 1 (handle E f s e).
Proof.
  intros F Htok. destruct e as [| |q|g|node|id|i r|i r|i r]; simpl;
    unfold afterPicture, afterFetch, afterJson.
  - destruct (_ && _); split; trivial. now apply Frame_with_loop.
  - destruct f; [now split|].
    destruct (_ && _); [|now split].
    unfold handleSmartQuery. destruct (_ || _); [now split|].
    now apply suspend_query_inv.
  - destruct f; [now split|].
    destruct (_ && _); split; trivial.
    destruct F. now constructor.
  - split; trivial. destruct F as [Hd Hl Ht Hp Hv Hk].
    constructor; simpl; trivial. now intros [? _]%andb_prop.
  - split; trivial. destruct F as [Hd Hl Ht Hp Hv Hk].
    constructor; simpl; trivial. now intros [_ ?]%andb_prop.
  - destruct (find (timer_is id) (timers s)) as [t|] eqn:Hf; [|now split].
    destruct (fired_timer _ F Hf) as (Hnil & Hc & Hne).
    rewrite Hnil. apply runCycle_inv; trivial.
    + destruct F as [Hd Hl Ht Hp Hv Hk]. constructor; simpl; trivial.
      intros ? [].
    + intros eff Hc'. simpl in *. specialize (Htok _ Hc').
      destruct (timers s); [congruence|]. simpl in Htok. lia.
  - destruct (nth_error (tasks s) i) as [[inv [| |]]|] eqn:Hi; try now split.
    destruct r as [uri|m].
    + apply (@advance_inv 1 i {| invocation := inv; stage := TakingPicture |});
        trivial. now apply Frame_call.
    + now apply (@finish_inv i {| invocation := inv; stage := TakingPicture |}).
  - destruct (nth_error (tasks s) i) as [[inv [| |]]|] eqn:Hi; try now split.
    destruct r as [status|m].
    + destruct (ok status).
      * now apply (@advance_inv 1 i {| invocation := inv; stage := Fetching |}).
      * now apply (@finish_inv i {| invocation := inv; stage := Fetching |}).
    + now apply (@finish_inv i {| invocation := inv; stage := Fetching |}).
  - destruct (nth_error (tasks s) i) as [[inv [| |]]|] eqn:Hi; try now split.
    destruct r as [j|m].
    + destruct (applyResult_inv E inv j F Htok) as (F' & T' & Hts).
      destruct (applyResult E inv j s) as [s' thrown]. simpl in *.
      apply (@finish_inv i {| invocation := inv; stage := ReadingJson |});
        trivial. now rewrite Hts.
    + now apply (@finish_inv i {| invocation := inv; stage := ReadingJson |}).
Qed.

Lemma clearLoopTimer_spec (s : Screen) :
  (forall t, In t (timers s) -> detectionLoopRef s = Some (timer_id t)) ->
  timers (clearLoopTimer s) = []
  /\ cleanup (clearLoopTimer s) = cleanup s
  /\ effects (clearLoopTimer s) = effects s
  /\ tasks (clearLoopTimer s) = tasks s
  /\ loop (clearLoopTimer s) = loop s
  /\ granted (clearLoopTimer s) = granted s
  /\ cameraRef (clearLoopTimer s) = cameraRef s
  /\ deps (clearLoopTimer s) = deps s.
Proof.
  intros H. unfold clearLoopTimer.
  destruct (detectionLoopRef s) as [id|] eqn:Hr; simpl; repeat split; trivial.
  - apply filter_none. intros t Hin. specialize (H _ Hin).
    injection H as ->. unfold timer_is. now rewrite Nat.eqb_refl.
  - destruct (timers s) as [|t ?]; trivial.
    specialize (H t (or_introl eq_refl)). discriminate.
Qed.

Lemma runCleanup_spec (s : Screen) :
  Frame s ->
  cleanup (runCleanup s) = None
  /\ timers (runCleanup s) = []
  /\ (forall k e, nth_error (effects (runCleanup s)) k = Some e -> cancelled e = true)
  /\ List.length (effects (runCleanup s)) = List.length (effects s)
  /\ tasks (runCleanup s) = tasks s
  /\ loop (runCleanup s) = loop s
  /\ granted (runCleanup s) = granted s
  /\ cameraRef (runCleanup s) = cameraRef s
  /\ deps (runCleanup s) = deps s.
Proof.
  intros F. unfold runCleanup.
  destruct (cleanup s) as [eff|] eqn:Hc.
  - rewrite (frame_live F Hc). simpl.
    match goal with |- context [clearLoopTimer ?x] =>
      destruct (@clearLoopTimer_spec x) as (H1 & H2 & H3 & H4 & H5 & H6 & H7 & H8)
    end.
    { simpl. intros t Hin. now destruct (frame_timers F _ Hin). }
    rewrite H1, H2, H3, H4, H5, H6, H7, H8. simpl.
    repeat split; trivial.
    + intros k e. rewrite nth_error_replace_nth.
      destruct (Nat.eqb eff k) eqn:Hk.
      * destruct (nth_error (effects s) k); [|discriminate]. now intros [= <-].
      * intros He. apply (frame_dead F He).
        apply Nat.eqb_neq in Hk. congruence.
    + apply length_replace_nth.
  - repeat split; trivial.
    + destruct (timers s) as [|t ?] eqn:Ht; trivial.
      destruct (@frame_timers _ F t) as (_ & H & _); [rewrite Ht; now left|].
      congruence.
    + intros k e He. apply (frame_dead F He). congruence.
Qed.

Lemma commit_inv (s : Screen) :
  Frame s -> Token 1 s -> Ready s ->
  Frame (commit s) /\ Token 1 (commit s).
Proof.
  intros F Htok Hready. unfold commit.
  destruct (Bool.eqb _ _ && Bool.eqb _ _) eqn:Hsame; [now split|].
  destruct (runCleanup_spec F)
    as (Hc & Ht & Hdead & Hlen & Hts & Hlp & Hg & Hcam & Hdeps).
  set (s0 := runCleanup s) in *.
  set (d := isDetecting (loop s)). set (g := granted s).
  set (s1 := set_effect (d, g) (cleanup s0) (effects s0) s0).
  assert (Hfinal : forall s2, Frame s2 /\ Token 1 s2 ->
    Frame (if negb g && d then setIsDetecting false s2 else s2)
    /\ Token 1 (if negb g && d then setIsDetecting false s2 else s2)).
  { intros s2 [F2 T2]. destruct (negb g && d); split; trivial.
    now apply Frame_with_loop. }
  apply Hfinal.
  destruct (negb d || negb g) eqn:Hbranch.
  - destruct (@clearLoopTimer_spec s1)
      as (H1 & H2 & H3 & H4 & H5 & H6 & H7 & H8).
    { simpl. rewrite Ht. intros ? []. }
    simpl in *. split.
    + constructor; rewrite ?H1, ?H2, ?H3, ?H4, ?H5, ?H6, ?H7, ?H8; simpl.
      * intros k e He _. eauto.
      * rewrite Hc. discriminate.
      * intros ? [].
      * rewrite Hc. split; [congruence|].
        intros [= Hd' Hg']. rewrite Hd', Hg' in Hbranch. discriminate.
      * rewrite Hcam, Hg. apply (frame_view F).
      * rewrite Hts, Hlen. apply (frame_tasks F).
    + intros eff. rewrite H2. simpl. rewrite Hc. discriminate.
  - apply orb_false_elim in Hbranch as [Hd' Hg'].
    apply negb_false_iff in Hd', Hg'.
    assert (Hsend : isSending (loop s) = false).
    { apply Hready; trivial. intros Hdp.
      pose proof Hd' as Hd2. pose proof Hg' as Hg2. unfold d in Hd2. unfold g in Hg2.
      rewrite Hdp, Hd2, Hg2 in Hsame. discriminate. }
    unfold startEffect. rewrite Hsend.
    apply runCycle_inv; simpl; trivial.
    + constructor; simpl.
      * intros k e He Hk.
        assert (k < List.length (effects s0)).
        { assert (Hlt : k < List.length (effects s0 ++
              [{| eff_isSending := false; eff_isDetecting := d; cancelled := false |}]))
            by (apply nth_error_Some; congruence).
          rewrite length_app in Hlt. simpl in Hlt.
          assert (k <> List.length (effects s0)) by congruence. lia. }
        rewrite nth_error_app1 in He by trivial. eauto.
      * intros eff [= <-]. rewrite nth_error_app2, Nat.sub_diag by lia.
        simpl. now rewrite Hd'.
      * rewrite Ht. intros ? [].
      * rewrite Hd', Hg'. split; [trivial | discriminate].
      * rewrite Hcam, Hg. apply (frame_view F).
      * rewrite Hts, length_app, Hlen. intros t eff Hin Hinv.
        pose proof (frame_tasks F _ Hin Hinv). lia.
    + intros eff [= <-]. unfold s1. simpl. rewrite Ht, Hts. simpl.
      rewrite Nat.add_0_r. unfold cycles_of.
      rewrite filter_none; trivial.
      intros t Hin. unfold is_cycle_of.
      destruct (invocation t) as [e|] eqn:Hinv; trivial.
      apply Nat.eqb_neq. pose proof (frame_tasks F _ Hin Hinv). lia.
Qed.

(** *** What the handlers and a commit leave alone *)

(** Only a commit touches the effect runs and their dependencies. *)
Lemma handle_effects (E : Engine) (f : ScreenFile) (s : Screen) (e : Event) :
  deps (handle E f s e) = deps s
  /\ cleanup (handle E f s e) = cleanup s
  /\ effects (handle E f s e) = effects s.
Proof.
  destruct e; unfold_pieces; simpl; break_match; auto.
Qed.

(** Only the toggle button changes [isDetecting] in a handler, and only the
    permission hook changes [granted]. *)
Lemma handle_detecting (E : Engine) (f : ScreenFile) (s : Screen) (e : Event) :
  e <> PressToggle ->
  isDetecting (loop (handle E f s e)) = isDetecting (loop s).
Proof.
  destruct e; try congruence; intros _; unfold_pieces; simpl; break_match; auto.
Qed.

Lemma handle_granted (E : Engine) (f : ScreenFile) (s : Screen) (e : Event) :
  (forall g, e <> Permission g) ->
  granted (handle E f s e) = granted s.
Proof.
  destruct e; intros H; try (now destruct (H g));
    unfold_pieces; simpl; break_match; auto.
Qed.

Lemma commit_fields (s : Screen) :
  Bool.eqb (isDetecting (loop s)) (fst (deps s))
    && Bool.eqb (granted s) (snd (deps s)) = false ->
  deps (commit s) = (isDetecting (loop s), granted s)
  /\ granted (commit s) = granted s
  /\ isDetecting (loop (commit s)) =
       (if negb (granted s) && isDetecting (loop s) then false
        else isDetecting (loop s)).
Proof.
  intros H. unfold commit. rewrite H. clear H.
  destruct s as [[d sd er dt al] uq g cam r dp cl es ts nt tk cs].
  unfold_pieces; simpl. destruct d, g; simpl; break_match; auto.
Qed.

Lemma Quiet_commit (s : Screen) : Quiet s -> commit s = s.
Proof.
  intros [Hd _]. unfold commit. rewrite Hd. simpl.
  now rewrite !eqb_reflx.
Qed.

Lemma commit_ready (s : Screen) : Ready s -> Ready (commit s).
Proof.
  intros Hr.
  destruct (Bool.eqb (isDetecting (loop s)) (fst (deps s))
            && Bool.eqb (granted s) (snd (deps s))) eqn:H.
  - unfold commit. now rewrite H.
  - destruct (commit_fields s H) as (Hd & Hg & Hi).
    intros H1 H2 H3. rewrite Hg in H2. rewrite Hi, H2 in H1. simpl in H1.
    rewrite Hd, H1, H2 in H3. now destruct H3.
Qed.

(** Two commits settle the screen, whatever the handler left. *)
Lemma flush_quiet (s : Screen) :
  (fst (deps s) = true -> snd (deps s) = true) -> Quiet (flush s).
Proof.
  intros Hpre. unfold flush.
  destruct (Bool.eqb (isDetecting (loop s)) (fst (deps s))
            && Bool.eqb (granted s) (snd (deps s))) eqn:H.
  - assert (Q : Quiet s).
    { apply andb_prop in H as [H1 H2]. apply eqb_prop in H1, H2.
      constructor.
      - rewrite H1, H2. now destruct (deps s).
      - rewrite H1, H2. exact Hpre. }
    now rewrite !(Quiet_commit Q).
  - destruct (commit_fields s H) as (Hd & Hg & Hi).
    destruct (negb (granted s) && isDetecting (loop s)) eqn:Hb.
    + apply andb_prop in Hb as [Hb1 Hb2]. apply negb_true_iff in Hb1.
      assert (H' : Bool.eqb (isDetecting (loop (commit s))) (fst (deps (commit s)))
                   && Bool.eqb (granted (commit s)) (snd (deps (commit s))) = false).
      { rewrite Hd, Hg, Hi, Hb2. reflexivity. }
      destruct (commit_fields _ H') as (Hd' & Hg' & Hi').
      constructor.
      * rewrite Hd', Hi'. rewrite Hg', Hg, Hb1, Hi. reflexivity.
      * rewrite Hi', Hi. rewrite Hg', Hg, Hb1. simpl. discriminate.
    + assert (Q : Quiet (commit s)).
      { constructor.
        - now rewrite Hd, Hg, Hi.
        - rewrite Hi, Hg. intros Ht. rewrite Ht, andb_true_r in Hb.
          now apply negb_false_iff in Hb. }
      now rewrite (Quiet_commit Q).
Qed.

Lemma handle_ready (E : Engine) (f : ScreenFile) (s : Screen) (e : Event) :
  Quiet s -> Ready (handle E f s e).
Proof.
  intros Q. pose proof Q as [Hd Hg].
  destruct (handle_effects E f s e) as (Hdeps & _ & _).
  intros H1 H2 H3. rewrite Hdeps in H3.
  destruct e as [| |q|g|node|id|i r|i r|i r];
    try (rewrite handle_detecting in H1 by discriminate;
         rewrite Hd, H1, (Hg H1) in H3; now destruct H3).
  simpl in *. destruct (cameraRef s && granted s) eqn:Hview; simpl in *.
  - destruct (isSending (loop s)) eqn:Hs, (isDetecting (loop s)) eqn:Hdet;
      simpl in *; trivial; try congruence.
  - rewrite Hd, H1, H2 in H3. now destruct H3.
Qed.

Lemma initial_inv : Inv initial.
Proof.
  constructor.
  - constructor; simpl; try discriminate; try tauto.
    + intros [|k] e; discriminate.
    + split; [now intros [] | discriminate].
  - intros eff; discriminate.
  - constructor; simpl; trivial.
Qed.

Theorem step_inv (E : Engine) (f : ScreenFile) (s : Screen) (e : Event) :
  Inv s -> Inv (step E f s e).
Proof.
  intros [F T Q]. unfold step, flush.
  destruct (handle_inv E f e F T) as [F1 T1].
  pose proof (handle_ready E f e Q) as R1.
  destruct (commit_inv F1 T1 R1) as [F2 T2].
  pose proof (commit_ready R1) as R2.
  destruct (commit_inv F2 T2 R2) as [F3 T3].
  constructor; trivial.
  apply flush_quiet.
  destruct (handle_effects E f s e) as (-> & _ & _).
  destruct Q as [-> Hg]. exact Hg.
Qed.

Lemma run_from_inv (E : Engine) (f : ScreenFile) (trace : list Event) (s : Screen) :
  Inv s -> Inv (run_from E f s trace).
Proof.
  revert s. induction trace as [|e trace IH]; intros s H; simpl; trivial.
  apply IH. now apply step_inv.
Qed.

Lemma run_inv (E : Engine) (f : ScreenFile) (trace : list Event) :
  Inv (run E f trace).
Proof. apply run_from_inv, initial_inv. Qed.

(** *** The two ways a commit goes *)

(** The loop effect takes its early return: nothing is pending afterwards
    and no call is made to the camera. *)
Lemma commit_clear (s : Screen) :
  Frame s -> guard_same s = false ->
  negb (isDetecting (loop s)) || negb (granted s) = true ->
  tasks (commit s) = tasks s
  /\ timers (commit s) = []
  /\ cleanup (commit s) = None
  /\ isSending (loop (commit s)) = isSending (loop s)
  /\ error (loop (commit s)) = error (loop s)
  /\ detections (loop (commit s)) = detections (loop s)
  /\ alertText (loop (commit s)) = alertText (loop s)
  /\ cycle_captures (commit s) = cycle_captures s.
Proof.
  intros F Hsame Hbr. unfold guard_same in Hsame. unfold commit.
  rewrite Hsame, Hbr.
  destruct (runCleanup_spec F)
    as (Hc & Ht & Hdead & Hlen & Hts & Hlp & Hg & Hcam & Hdeps).
  assert (Hcap : cycle_captures (runCleanup s) = cycle_captures s).
  { unfold cycle_captures, runCleanup, clearLoopTimer.
    destruct (cleanup s); trivial. simpl.
    destruct (detectionLoopRef s); trivial. }
  set (s0 := runCleanup s) in *.
  set (s1 := set_effect _ _ _ s0).
  destruct (@clearLoopTimer_spec s1)
    as (H1 & H2 & H3 & H4 & H5 & H6 & H7 & H8).
  { simpl. rewrite Ht. intros ? []. }
  assert (Hcap1 : cycle_captures (clearLoopTimer s1) = cycle_captures s).
  { rewrite <- Hcap. unfold cycle_captures, clearLoopTimer.
    destruct (detectionLoopRef s1); trivial. }
  simpl in *.
  destruct (negb (granted s) && isDetecting (loop s)); simpl;
    rewrite ?H1, ?H2, ?H4, ?H5, ?Hlp; repeat split; trivial.
Qed.

(** The loop effect starts a run: [runCycle()] either suspends on the
    camera or, without a camera, arms the timer. *)
Lemma commit_start (s : Screen) :
  Frame s -> isDetecting (loop s) = true -> granted s = true ->
  deps s <> (true, true) -> isSending (loop s) = false ->
  let eff := List.length (effects s) in
  cleanup (commit s) = Some eff
  /\ detections (loop (commit s)) = detections (loop s)
  /\ alertText (loop (commit s)) = alertText (loop s)
  /\ isDetecting (loop (commit s)) = true
  /\ if cameraRef s then
       tasks (commit s) =
         tasks s ++ [{| invocation := CaptureAndSend eff; stage := TakingPicture |}]
       /\ timers (commit s) = []
       /\ isSending (loop (commit s)) = true
       /\ error (loop (commit s)) = []
     else
       tasks (commit s) = tasks s
       /\ isSending (loop (commit s)) = false
       /\ error (loop (commit s)) = error (loop s)
       /\ exists id, timers (commit s) =
            [{| timer_id := id; timer_delay := 1500; timer_effect := eff |}].
Proof.
  intros F Hd Hg Hdeps Hsend eff. unfold commit.
  assert (Hsame : Bool.eqb (isDetecting (loop s)) (fst (deps s))
                  && Bool.eqb (granted s) (snd (deps s)) = false).
  { rewrite Hd, Hg. destruct (deps s) as [[|] [|]]; trivial. now destruct Hdeps. }
  rewrite Hsame, Hd, Hg, Hsend. simpl.
  destruct (runCleanup_spec F)
    as (Hc & Ht & Hdead & Hlen & Hts & Hlp & Hg' & Hcam & _).
  set (s0 := runCleanup s) in *.
  unfold startEffect, runCycle, captureAndSend, resumeCycle. simpl.
  rewrite nth_error_app2, Nat.sub_diag by lia. simpl.
  rewrite Hcam. unfold eff. rewrite <- Hlen.
  destruct (cameraRef s); simpl.
  - rewrite Hts, Ht, Hlp. repeat split; trivial.
  - rewrite Hts, Ht, Hlp, Hsend. repeat split; trivial. now eexists.
Qed.

(** ** The invariant of the screen without the smart query *)

Lemma resumeCycle_fields (eff : nat) (s : Screen) :
  tasks (resumeCycle eff s) = tasks s
  /\ loop (resumeCycle eff s) = loop s
  /\ cleanup (resumeCycle eff s) = cleanup s.
Proof. unfold resumeCycle, armTimer. break_match; auto. Qed.

Lemma finish_fields (i : nat) (inv : Invocation)
    (thrown : option (option jsstring)) (s : Screen) :
  tasks (finish i inv thrown s) = remove_nth i (tasks s)
  /\ isSending (loop (finish i inv thrown s)) = false
  /\ error (loop (finish i inv thrown s)) =
       match thrown with Some m => messageOf m | None => error (loop s) end
  /\ detections (loop (finish i inv thrown s)) = detections (loop s)
  /\ alertText (loop (finish i inv thrown s)) = alertText (loop s)
  /\ isDetecting (loop (finish i inv thrown s)) = isDetecting (loop s)
  /\ cleanup (finish i inv thrown s) = cleanup s.
Proof.
  unfold finish. destruct inv as [eff|q].
  - match goal with |- context [resumeCycle eff ?x] =>
      destruct (resumeCycle_fields eff x) as (-> & -> & ->) end.
    destruct thrown; simpl; auto 10.
  - destruct thrown; simpl; auto 10.
Qed.

Lemma finish_tabs (i : nat) (t : Task) (thrown : option (option jsstring))
    (s : Screen) :
  tasks s = [t] -> nth_error (tasks s) i = Some t ->
  TabsInv (finish i (invocation t) thrown s).
Proof.
  intros Hts Hi. rewrite Hts in Hi.
  destruct i as [|i]; [|now destruct i].
  destruct (finish_fields 0 (invocation t) thrown s) as (H1 & H2 & _).
  unfold TabsInv. rewrite H1, Hts. exact H2.
Qed.

Lemma single_task (s : Screen) (i : nat) (t : Task) :
  TabsInv s -> nth_error (tasks s) i = Some t ->
  tasks s = [t] /\ i = 0.
Proof.
  unfold TabsInv. intros H Hi.
  destruct (tasks s) as [|t0 [|t1 ts]]; [now destruct i| |contradiction].
  destruct i as [|i]; [|now destruct i]. simpl in Hi. now injection Hi as ->.
Qed.

Lemma timer_means_idle (s : Screen) :
  Frame s -> Token 1 s -> TabsInv s -> timers s <> [] ->
  tasks s = [] /\ isSending (loop s) = false.
Proof.
  intros F T H Hne. unfold TabsInv in H.
  destruct (tasks s) as [|t0 [|t1 ts]] eqn:Hts; [now split| |contradiction].
  destruct H as (_ & _ & eff & Hinv & Hown).
  destruct (timers s) as [|tm tms] eqn:Htm; [congruence|].
  destruct (@frame_timers _ F tm) as (_ & Hc & _); [rewrite Htm; now left|].
  specialize (T _ Hc). rewrite Hts, Htm in T.
  rewrite (Hown _ Hc) in T. unfold cycles_of, is_cycle_of in T. simpl in T.
  rewrite Hinv, Nat.eqb_refl in T. simpl in T. lia.
Qed.

Lemma runCycle_tabs (eff : nat) (s : Screen) :
  Frame s -> cleanup s = Some eff -> tasks s = [] ->
  isSending (loop s) = false -> TabsInv (runCycle eff s).
Proof.
  intros F Hc Hts Hs. unfold runCycle, captureAndSend.
  rewrite (frame_live F Hc). simpl.
  destruct (negb (cameraRef s) || false).
  - destruct (resumeCycle_fields eff s) as (H1 & H2 & _).
    unfold TabsInv. now rewrite H1, H2, Hts.
  - unfold TabsInv. simpl. rewrite Hts. simpl.
    repeat split; trivial. exists eff. split; trivial. congruence.
Qed.

Lemma handle_tabs (E : Engine) (s : Screen) (e : Event) :
  Inv s -> TabsInv s -> TabsInv (handle E TabsIndex s e).
Proof.
  intros [F T Q] H. destruct e as [| |q|g|node|id|i r|i r|i r]; simpl;
    unfold afterPicture, afterFetch, afterJson; trivial.
  - now destruct (_ && _).
  - destruct (find (timer_is id) (timers s)) as [t|] eqn:Hf; trivial.
    destruct (fired_timer _ F Hf) as (Hnil & Hc & Hne).
    destruct (timer_means_idle F T H Hne) as [Hts Hs].
    apply runCycle_tabs; trivial.
    destruct F as [Hd Hl Ht Hp Hv Hk]. constructor; simpl; trivial.
    rewrite Hnil. intros ? [].
  - destruct (nth_error (tasks s) i) as [[inv st]|] eqn:Hi; trivial.
    destruct (@single_task s i _ H Hi) as [Hts ->].
    destruct st; trivial. destruct r as [uri|m].
    + unfold TabsInv, advance in *. simpl. rewrite Hts in *. exact H.
    + now apply (@finish_tabs 0 {| invocation := inv; stage := TakingPicture |}).
  - destruct (nth_error (tasks s) i) as [[inv st]|] eqn:Hi; trivial.
    destruct (@single_task s i _ H Hi) as [Hts ->].
    destruct st; trivial. destruct r as [status|m].
    + destruct (ok status).
      * unfold TabsInv, advance in *. simpl. rewrite Hts in *. exact H.
      * now apply (@finish_tabs 0 {| invocation := inv; stage := Fetching |}).
    + now apply (@finish_tabs 0 {| invocation := inv; stage := Fetching |}).
  - destruct (nth_error (tasks s) i) as [[inv st]|] eqn:Hi; trivial.
    destruct (@single_task s i _ H Hi) as [Hts ->].
    destruct st; trivial. destruct r as [j|m].
    + destruct (applyResult_inv E inv j F T) as (_ & _ & Hts').
      destruct (applyResult E inv j s) as [s' thrown]. simpl in *.
      apply (@finish_tabs 0 {| invocation := inv; stage := ReadingJson |});
        now rewrite Hts', Hts.
    + now apply (@finish_tabs 0 {| invocation := inv; stage := ReadingJson |}).
Qed.

Lemma commit_tabs (s : Screen) :
  Frame s -> Ready s -> TabsInv s -> TabsInv (commit s).
Proof.
  intros F R H.
  destruct (guard_same s) eqn:Hsame.
  - unfold commit. unfold guard_same in Hsame. now rewrite Hsame.
  - destruct (negb (isDetecting (loop s)) || negb (granted s)) eqn:Hbr.
    + destruct (commit_clear F Hsame Hbr) as (H1 & _ & H3 & H4 & H5 & _).
      unfold TabsInv in *. rewrite H1, H3, H4, H5.
      destruct (tasks s) as [|t0 [|t1 ts]]; trivial.
      destruct H as (Ha & Hb & eff & Hinv & _).
      repeat split; trivial. exists eff. split; trivial. discriminate.
    + apply orb_false_elim in Hbr as [Hd Hg].
      apply negb_false_iff in Hd, Hg.
      assert (Hdeps : deps s <> (true, true)).
      { intros Hdp. unfold guard_same in Hsame.
        rewrite Hdp, Hd, Hg in Hsame. discriminate. }
      pose proof (R Hd Hg Hdeps) as Hs.
      destruct (commit_start F Hd Hg Hdeps Hs) as (Hc & _ & _ & _ & Hcam).
      assert (Hts : tasks s = []).
      { unfold TabsInv in H. destruct (tasks s) as [|t0 [|t1 ts]]; trivial.
        - destruct H as [H _]. congruence.
        - contradiction. }
      unfold TabsInv. destruct (cameraRef s).
      * destruct Hcam as (-> & _ & -> & ->). rewrite Hts. simpl.
        repeat split; trivial. eexists. split; [reflexivity|]. congruence.
      * destruct Hcam as (-> & -> & _). now rewrite Hts.
Qed.

Theorem step_tabs (E : Engine) (s : Screen) (e : Event) :
  Inv s -> TabsInv s -> TabsInv (step E TabsIndex s e).
Proof.
  intros I H. pose proof I as [F T Q]. unfold step, flush.
  destruct (handle_inv E TabsIndex e F T) as [F1 T1].
  pose proof (handle_ready E TabsIndex e Q) as R1.
  destruct (commit_inv F1 T1 R1) as [F2 T2].
  apply commit_tabs; trivial.
  - now apply commit_ready.
  - apply commit_tabs; trivial. now apply handle_tabs.
Qed.

Lemma run_from_tabs (E : Engine) (trace : list Event) (s : Screen) :
  Inv s -> TabsInv s -> TabsInv (run_from E TabsIndex s trace).
Proof.
  revert s. induction trace as [|e trace IH]; intros s I H; simpl; trivial.
  apply IH; [now apply step_inv | now apply step_tabs].
Qed.

Lemma run_tabs (E : Engine) (trace : list Event) :
  TabsInv (run E TabsIndex trace).
Proof. apply run_from_tabs; [apply initial_inv | reflexivity]. Qed.

(** *** What a transition does to the results *)

(** A commit never touches the results, nor what is being sent's error. *)
Lemma commit_results (s : Screen) :
  detections (loop (commit s)) = detections (loop s)
  /\ alertText (loop (commit s)) = alertText (loop s).
Proof.
  unfold_pieces. simpl. break_match; auto.
Qed.

Lemma flush_results (s : Screen) :
  detections (loop (flush s)) = detections (loop s)
  /\ alertText (loop (flush s)) = alertText (loop s).
Proof.
  unfold flush.
  destruct (commit_results (commit s)) as [-> ->]. apply commit_results.
Qed.

(** Only a body that arrives changes the results. *)
Lemma handle_results (E : Engine) (f : ScreenFile) (s : Screen) (e : Event) :
  delivers_body e = false ->
  detections (loop (handle E f s e)) = detections (loop s)
  /\ alertText (loop (handle E f s e)) = alertText (loop s).
Proof.
  destruct e as [| |q|g|node|id|i r|i r|i [j|m]]; try discriminate; intros _;
    unfold_pieces; simpl; break_match; auto.
Qed.

Lemma step_results (E : Engine) (f : ScreenFile) (s : Screen) (e : Event) :
  delivers_body e = false ->
  detections (loop (step E f s e)) = detections (loop s)
  /\ alertText (loop (step E f s e)) = alertText (loop s).
Proof.
  intros H. unfold step.
  destruct (flush_results (handle E f s e)) as [-> ->].
  now apply handle_results.
Qed.

(** A handler that leaves [isDetecting] and [granted] alone leaves a quiet
    screen quiet, so the commits after it do nothing. *)
Lemma step_quiet (E : Engine) (f : ScreenFile) (s : Screen) (e : Event) :
  Quiet s -> e <> PressToggle -> (forall g, e <> Permission g) ->
  step E f s e = handle E f s e.
Proof.
  intros [Hd Hg] H1 H2. unfold step, flush.
  assert (Q : Quiet (handle E f s e)).
  { destruct (handle_effects E f s e) as (Hdeps & _ & _).
    constructor; rewrite ?Hdeps, handle_detecting, handle_granted; trivial. }
  now rewrite !(Quiet_commit Q).
Qed.

(* ===================================================================== *)
(** * The claims *)
(* ===================================================================== *)

(** C7.  Default-filling: the response [{"objects":[{}]}] parses to the one
    Detection [{label:"Unknown", distance:0, direction:"center",
    risk:"clear"}], on both screens and whatever the engine; and in the
    Detection made from any element, each field the element lacks has its
    default. *)
Theorem default_filling (E : Engine) :
  parsedDetections E (JObj [(lit "objects", JArr [JObj []])])
    = Ok [defaultDetection]
  /\ forall item d, toDetection E item = Ok d ->
       (member item (lit "label") = None -> label d = JStr (lit "Unknown"))
       /\ (member item (lit "distance") = None -> distance d = Fin 0)
       /\ (member item (lit "direction") = None -> direction d = JStr (lit "center"))
       /\ (member item (lit "risk") = None -> risk d = JStr (lit "clear")).
Proof.
  split; [reflexivity|].
  intros item d. unfold toDetection.
  destruct (member item (lit "distance")) as [v|] eqn:Hdist.
  - destruct (Number E _); [|discriminate]. simpl.
    intros [= <-]. simpl.
    repeat split; try discriminate; now intros ->.
  - simpl. intros [= <-]. simpl.
    repeat split; trivial; now intros ->.
Qed.

(** C9.  The question field of the request body of a smart query is the
    fixed prompt when the user's question is empty or white space only,
    and the trimmed question otherwise. *)
Theorem request_question (q uri : jsstring) :
  formData (HandleSmartQuery q) uri =
    {| file_uri := uri;
       question := Some (if forallb isWhiteSpace q then defaultQuestion
                         else trim q) |}.
Proof. simpl. now rewrite questionToSend_cases. Qed.

(** The request a smart query sends once its picture is taken carries that
    form data. *)
Lemma smart_query_request (E : Engine) (f : ScreenFile) (s : Screen) (i : nat)
    (q uri : jsstring) :
  nth_error (tasks s) i
    = Some {| invocation := HandleSmartQuery q; stage := TakingPicture |} ->
  calls (handle E f s (PictureSettled i (Resolved uri)))
    = Fetch SMART_QUERY_URL (formData (HandleSmartQuery q) uri) :: calls s.
Proof. intros H. simpl. now rewrite H. Qed.

Example whitespace_question :
  questionToSend (lit "  " ++ [12288%N; 9%N]) = defaultQuestion
  /\ questionToSend (lit "  Where is the door? ") = lit "Where is the door?".
Proof. split; reflexivity. Qed.

(** *** Sorting (C6) *)

Lemma mapM_converts (E : Engine) (items : list json) :
  forallb (converts E) items = true ->
  exists ds, mapM (toDetection E) items = Ok ds
    /\ Forall (fun d => is_NaN (distance d) = false) ds.
Proof.
  induction items as [|item items IH]; simpl.
  - exists []. split; [reflexivity | constructor].
  - intros [Hc Hrest]%andb_prop. destruct (IH Hrest) as (ds & Hds & Hall).
    assert (Hd : exists d, toDetection E item = Ok d /\ is_NaN (distance d) = false).
    { unfold converts in Hc. unfold toDetection.
      destruct (Number E _) as [n|m]; [|discriminate]. simpl.
      eexists. split; [reflexivity|]. simpl. now apply negb_true_iff. }
    destruct Hd as (d & -> & Hd). rewrite Hds. simpl.
    eexists. split; [reflexivity|]. now constructor.
Qed.

Lemma parsed_sorted (E : Engine) (j : json) (items : list json) :
  member j (lit "objects") = Some (JArr items) ->
  forallb (converts E) items = true ->
  exists ds, parsedDetections E j = Ok ds /\ Sorted distance_le ds.
Proof.
  intros Hm Hc. destruct (mapM_converts E items Hc) as (ds & Hds & Hall).
  exists (sort byDistance ds). split.
  - unfold parsedDetections, objectsOf. rewrite Hm.
    destruct j; try discriminate. now rewrite Hds.
  - now apply (sort_sorted distance).
Qed.

(** The list a body parses to is what the screen then shows. *)
Lemma stored_detections (E : Engine) (f : ScreenFile) (s : Screen) (i : nat)
    (inv : Invocation) (j : json) (ds : list Detection) :
  nth_error (tasks s) i = Some {| invocation := inv; stage := ReadingJson |} ->
  parsedDetections E j = Ok ds ->
  detections (loop (step E f s (JsonSettled i (Resolved j)))) = ds.
Proof.
  intros Hi Hp. unfold step.
  destruct (flush_results (handle E f s (JsonSettled i (Resolved j)))) as [-> _].
  simpl. rewrite Hi. unfold afterJson, applyResult. rewrite Hp.
  destruct inv as [eff|q].
  - match goal with |- context [finish i ?a ?b ?c] =>
      destruct (finish_fields i a b c) as (_ & _ & _ & -> & _) end.
    unfold speakAlert. now destruct (negb _).
  - destruct (nullish _ _);
      match goal with |- context [finish i ?a ?b ?c] =>
        destruct (finish_fields i a b c) as (_ & _ & _ & -> & _) end;
      trivial.
    unfold speakAlert. now destruct (negb _).
Qed.

(** C6, amended.  When the body of a response has an [objects] array and the
    distance of every element converts to a number, the list stored by the
    cycle that receives it is what the body parses to, sorted
    non-decreasing in distance. *)
Theorem sorted_detections (E : Engine) (f : ScreenFile) (s : Screen) (i : nat)
    (inv : Invocation) (j : json) (items : list json) :
  nth_error (tasks s) i = Some {| invocation := inv; stage := ReadingJson |} ->
  member j (lit "objects") = Some (JArr items) ->
  forallb (converts E) items = true ->
  let s' := step E f s (JsonSettled i (Resolved j)) in
  parsedDetections E j = Ok (detections (loop s'))
  /\ Sorted distance_le (detections (loop s')).
Proof.
  intros Hi Hm Hc s'. destruct (parsed_sorted E j Hm Hc) as (ds & Hp & Hs).
  unfold s'. rewrite (@stored_detections E f s i inv j ds Hi Hp). now split.
Qed.

(** [sorted_detections] at a body with the distances 3, none and 1.5: the
    stored distances are 0, 1.5 and 3. *)
Lemma sorted_detections_witness :
  let s := run engine TabsIndex (mounted ++ poll) in
  let j := JObj [(lit "objects", JArr [numbered 3; JObj []; numbered (3 # 2)])] in
  let s' := step engine TabsIndex s (JsonSettled 0 (Resolved j)) in
  map distance (detections (loop s')) = [Fin 0; Fin (3 # 2); Fin 3]
  /\ parsedDetections engine j = Ok (detections (loop s'))
  /\ Sorted distance_le (detections (loop s')).
Proof.
  split; [reflexivity|].
  apply (@sorted_detections engine TabsIndex
           (run engine TabsIndex (mounted ++ poll)) 0 (CaptureAndSend 0)
           (JObj [(lit "objects", JArr [numbered 3; JObj []; numbered (3 # 2)])])
           [numbered 3; JObj []; numbered (3 # 2)]);
    reflexivity.
Defined.

(** The distances stored for [unsortable], whatever the engine. *)
Lemma unsortable_stored (E : Engine) :
  map distance (detections (loop (run E TabsIndex
     (mounted ++ poll ++ [JsonSettled 0 (Resolved unsortable)]))))
  = [NaN; Fin 1].
Proof. vm_compute. reflexivity. Qed.

Lemma Sorted_map_distance (l : list Detection) :
  Sorted distance_le l ->
  Sorted (fun a b => number_leb a b = true) (map distance l).
Proof.
  induction 1 as [|d l Hs IH Hhd]; simpl; constructor; trivial.
  destruct Hhd; simpl; constructor; trivial.
Qed.

(** No order of two detections at distances [NaN] and [1] is sorted:
    [1 <= NaN] is false too, so the verdict does not depend on how the
    engine's sort treats a comparator that answers [NaN]. *)
Lemma no_order_sorted (l : list Detection) :
  Permutation (map distance l) [NaN; Fin 1] -> ~ Sorted distance_le l.
Proof.
  intros Hp Hs. apply Sorted_map_distance in Hs.
  apply Permutation_sym, Permutation_length_2_inv in Hp as [Hl | Hl];
    rewrite Hl in Hs;
    inversion Hs as [|a l' Hs' Hhd]; subst;
    inversion Hhd as [|b l'' Hle]; subst; discriminate Hle.
Qed.

(** C6 as stated fails: the body [{"objects":[{"distance":{}},
    {"distance":1}]}] has an [objects] array, and the list the cycle stores
    for it holds the distances [NaN] and [1], whatever the engine; it is
    not sorted, since [NaN <= 1] is false. *)
Lemma unsortable_response :
  ~ (exists E : Engine,
       Sorted distance_le
         (detections (loop (run E TabsIndex
            (mounted ++ poll ++ [JsonSettled 0 (Resolved unsortable)]))))).
Proof.
  intros [E H]. revert H. apply no_order_sorted.
  rewrite unsortable_stored. apply Permutation_refl.
Qed.

(** *** Tolerant parsing (C8) *)

Lemma parsed_without_objects (E : Engine) (j : json) :
  j <> JNull ->
  (forall items, member j (lit "objects") <> Some (JArr items)) ->
  parsedDetections E j = Ok [].
Proof.
  intros Hj Hnone. unfold parsedDetections, objectsOf.
  destruct (member j (lit "objects")) as [[| | | |items|]|] eqn:Hm;
    try (now destruct j).
  now destruct (Hnone items).
Qed.

(** What the arrival of a body that parses does to a call of
    [captureAndSend], on a quiet screen. *)
Lemma body_applied (E : Engine) (f : ScreenFile) (s : Screen) (i eff : nat)
    (j : json) (ds : list Detection) :
  Quiet s ->
  nth_error (tasks s) i
    = Some {| invocation := CaptureAndSend eff; stage := ReadingJson |} ->
  parsedDetections E j = Ok ds ->
  let s' := step E f s (JsonSettled i (Resolved j)) in
  detections (loop s') = ds
  /\ alertText (loop s') = nullish (member j (lit "alert_text")) (JStr [])
  /\ error (loop s') = error (loop s)
  /\ isSending (loop s') = false
  /\ tasks s' = remove_nth i (tasks s).
Proof.
  intros Q Hi Hp s'. unfold s'.
  rewrite step_quiet by (trivial; discriminate).
  simpl. rewrite Hi. unfold afterJson, applyResult. rewrite Hp.
  match goal with |- context [finish i ?a ?b ?c] =>
    destruct (finish_fields i a b c) as (-> & -> & -> & -> & -> & _) end.
  unfold speakAlert. now destruct (negb _).
Qed.

(** C8, amended.  On the detection screen, when the body of a 2xx response
    parses to a value other than [null] whose [objects] is absent or not an
    array, the cycle succeeds: no error is shown, the detection list is
    set to the empty list and nothing is being sent any more. *)
Theorem tolerant_parsing (E : Engine) (trace : list Event) (i eff : nat)
    (j : json) :
  let s := run E TabsIndex trace in
  nth_error (tasks s) i
    = Some {| invocation := CaptureAndSend eff; stage := ReadingJson |} ->
  j <> JNull ->
  (forall items, member j (lit "objects") <> Some (JArr items)) ->
  let s' := step E TabsIndex s (JsonSettled i (Resolved j)) in
  detections (loop s') = [] /\ error (loop s') = []
  /\ isSending (loop s') = false.
Proof.
  intros s Hi Hj Hnone s'.
  pose proof (run_inv E TabsIndex trace) as [F T Q].
  pose proof (run_tabs E trace) as H. fold s in F, T, Q, H.
  destruct (@body_applied E TabsIndex s i eff j [] Q Hi
              (parsed_without_objects E Hj Hnone)) as (H1 & _ & H3 & H4 & _).
  fold s' in H1, H3, H4. repeat split; trivial.
  rewrite H3. unfold TabsInv in H.
  destruct (@single_task s i _ H Hi) as [Hts _]. rewrite Hts in H. apply H.
Qed.

(** [tolerant_parsing] at the body [{"objects":"none"}]. *)
Lemma tolerant_parsing_witness :
  let s := run engine TabsIndex (mounted ++ poll) in
  let j := JObj [(lit "objects", JStr (lit "none"))] in
  let s' := step engine TabsIndex s (JsonSettled 0 (Resolved j)) in
  detections (loop s') = [] /\ error (loop s') = []
  /\ isSending (loop s') = false.
Proof.
  apply (@tolerant_parsing engine (mounted ++ poll) 0 0
           (JObj [(lit "objects", JStr (lit "none"))])).
  - reflexivity.
  - discriminate.
  - intros items. discriminate.
Defined.

(** What the screen shows after [null_body], whatever the engine. *)
Lemma null_body_stored (E : Engine) :
  detections (loop (run E TabsIndex null_body)) = [defaultDetection]
  /\ error (loop (run E TabsIndex null_body)) = nullReadMessage E (lit "objects").
Proof. vm_compute. split; reflexivity. Qed.

(** C8 as stated fails: [null] is a 2xx body without an [objects] field,
    but reading [json.objects] of it throws; the cycle ends in the [catch]
    block and the detection list keeps the detection of the cycle
    before, whatever the engine. *)
Lemma null_body_keeps_detections :
  ~ (exists E : Engine, detections (loop (run E TabsIndex null_body)) = []).
Proof.
  intros [E H]. rewrite (proj1 (null_body_stored E)) in H. discriminate H.
Qed.

(** *** The answer of a smart query (C1) *)

(** What the arrival of a body that parses does to a call of
    [handleSmartQuery] when the answer is a string (or absent), on a quiet
    screen. *)
Lemma answer_applied (E : Engine) (f : ScreenFile) (s : Screen) (i : nat)
    (q a : jsstring) (j : json) (ds : list Detection) :
  Quiet s ->
  nth_error (tasks s) i
    = Some {| invocation := HandleSmartQuery q; stage := ReadingJson |} ->
  parsedDetections E j = Ok ds ->
  nullish (member j (lit "answer_text")) (JStr []) = JStr a ->
  let s' := step E f s (JsonSettled i (Resolved j)) in
  let spokenText := or_else (trim a) (questionToSend q) in
  alertText (loop s') = JStr spokenText
  /\ calls s' = SpeechSpeak (JStr spokenText) :: SpeechStop :: calls s.
Proof.
  intros Q Hi Hp Ha s' spokenText. unfold s'.
  rewrite step_quiet by (trivial; discriminate).
  simpl. rewrite Hi. unfold afterJson, applyResult. rewrite Hp, Ha. fold spokenText.
  assert (Hne : truthy (JStr spokenText) = true).
  { unfold spokenText, or_else. destruct (trim a); trivial.
    pose proof (questionToSend_nonempty q). simpl.
    now destruct (questionToSend q). }
  unfold speakAlert. rewrite Hne. simpl. split; reflexivity.
Qed.

(** C1, amended.  In a smart query, when the answer text of the response is
    absent, [null] or empty after trimming, the alert text is set to the
    question that was sent (the trimmed question of the user, or the fixed
    prompt), which is never empty, and that text is spoken; whatever the
    answer, the text stored is non-empty and is the text spoken. *)
Theorem answer_fallback (E : Engine) (trace : list Event) (i : nat)
    (q a : jsstring) (j : json) (ds : list Detection) :
  let s := run E AppIndex trace in
  nth_error (tasks s) i
    = Some {| invocation := HandleSmartQuery q; stage := ReadingJson |} ->
  parsedDetections E j = Ok ds ->
  nullish (member j (lit "answer_text")) (JStr []) = JStr a ->
  let s' := step E AppIndex s (JsonSettled i (Resolved j)) in
  (trim a = [] -> alertText (loop s') = JStr (questionToSend q))
  /\ (exists text, text <> [] /\ alertText (loop s') = JStr text
        /\ calls s' = SpeechSpeak (JStr text) :: SpeechStop :: calls s).
Proof.
  intros s Hi Hp Ha s'.
  pose proof (run_inv E AppIndex trace) as [_ _ Q]. fold s in Q.
  destruct (@answer_applied E AppIndex s i q a j ds Q Hi Hp Ha) as [H1 H2].
  fold s' in H1, H2. split.
  - intros Ht. now rewrite H1, Ht.
  - eexists. split; [|split; eassumption].
    unfold or_else. destruct (trim a); [apply questionToSend_nonempty|discriminate].
Qed.

(** [answer_fallback] at an answer of two spaces to an empty question. *)
Lemma answer_fallback_witness :
  let s := run engine AppIndex (mounted ++ query) in
  let j := JObj [(lit "answer_text", JStr (lit "  "))] in
  let s' := step engine AppIndex s (JsonSettled 0 (Resolved j)) in
  (trim (lit "  ") = [] -> alertText (loop s') = JStr (questionToSend []))
  /\ (exists text, text <> [] /\ alertText (loop s') = JStr text
        /\ calls s' = SpeechSpeak (JStr text) :: SpeechStop :: calls s).
Proof.
  apply (@answer_fallback engine (mounted ++ query) 0 [] (lit "  ")
           (JObj [(lit "answer_text", JStr (lit "  "))]) []);
    reflexivity.
Defined.

(** After a smart query answered with [{}] the fixed prompt is shown and
    spoken. *)
Lemma missing_answer_spoken (E : Engine) :
  alertText (loop (run E AppIndex
     (mounted ++ query ++ [JsonSettled 0 (Resolved (JObj []))])))
  = JStr defaultQuestion
  /\ hd_error (calls (run E AppIndex
        (mounted ++ query ++ [JsonSettled 0 (Resolved (JObj []))])))
     = Some (SpeechSpeak (JStr defaultQuestion)).
Proof. vm_compute. split; reflexivity. Qed.

(** C1 as stated fails: after a smart query whose response [{}] has no
    answer text, the alert text is the fixed prompt, not the empty
    string, whatever the engine. *)
Lemma missing_answer_shows_question :
  ~ (exists E : Engine,
       alertText (loop (run E AppIndex
          (mounted ++ query ++ [JsonSettled 0 (Resolved (JObj []))])))
       = JStr []).
Proof.
  intros [E H]. rewrite (proj1 (missing_answer_spoken E)) in H.
  discriminate H.
Qed.

(** *** Failures and re-arming (C4, C5) *)

Lemma failure_handle (E : Engine) (f : ScreenFile) (s : Screen) (i : nat)
    (inv : Invocation) (st : Stage) (e : Event) (msg : jsstring) :
  nth_error (tasks s) i = Some {| invocation := inv; stage := st |} ->
  failure st i e = Some msg ->
  exists m, messageOf m = msg
    /\ handle E f s e = finish i inv (Some m) s
    /\ e <> PressToggle /\ (forall g, e <> Permission g).
Proof.
  intros Hi Hf.
  destruct st, e as [| |q|g|node|id|i' [uri|m]|i' [status|m]|i' [j|m]];
    simpl in Hf; try discriminate.
  all: try (destruct (Nat.eqb i i') eqn:Heq; [|discriminate];
            apply Nat.eqb_eq in Heq; subst i'; injection Hf as <-;
            exists m; simpl; rewrite Hi; repeat split; discriminate || trivial).
  destruct (Nat.eqb i i') eqn:Heq; [|discriminate].
  destruct (ok status) eqn:Hok; [discriminate|].
  apply Nat.eqb_eq in Heq; subst i'. injection Hf as <-.
  exists (Some (serverError status)). simpl. rewrite Hi. unfold afterFetch.
  rewrite Hok.
  repeat split; discriminate || trivial.
Qed.

(** The end of a cycle of the live run arms exactly one timeout of
    1500 ms. *)
Lemma finish_rearms (i eff : nat) (st : Stage)
    (thrown : option (option jsstring)) (s : Screen) :
  Frame s -> Token 1 s ->
  nth_error (tasks s) i
    = Some {| invocation := CaptureAndSend eff; stage := st |} ->
  cleanup s = Some eff ->
  let s' := finish i (CaptureAndSend eff) thrown s in
  timers s' =
    [{| timer_id := nextTimer s; timer_delay := 1500; timer_effect := eff |}]
  /\ calls s' = SetTimeout (nextTimer s) 1500 :: calls s
  /\ detectionLoopRef s' = Some (nextTimer s).
Proof.
  intros F T Hi Hc s'.
  assert (Hts : timers s = []).
  { specialize (T _ Hc). unfold cycles_of in T.
    rewrite (filter_remove_nth _ _ _ Hi) in T.
    unfold is_cycle_of in T. simpl in T. rewrite Nat.eqb_refl in T.
    destruct (timers s); trivial. simpl in T. lia. }
  unfold s', finish, resumeCycle.
  assert (He : forall x, effects x = effects s ->
    nth_error (effects x) eff =
      Some {| eff_isSending := false; eff_isDetecting := true; cancelled := false |}).
  { intros x ->. apply (frame_live F Hc). }
  rewrite He by (now destruct thrown). simpl.
  destruct thrown; simpl; rewrite Hts; auto.
Qed.

Lemma applyResult_fields (E : Engine) (inv : Invocation) (j : json) (s : Screen) :
  cleanup (fst (applyResult E inv j s)) = cleanup s
  /\ nextTimer (fst (applyResult E inv j s)) = nextTimer s
  /\ isDetecting (loop (fst (applyResult E inv j s))) = isDetecting (loop s).
Proof. unfold applyResult, speakAlert. break_match; auto. Qed.

Lemma handle_body (E : Engine) (f : ScreenFile) (s : Screen) (i : nat)
    (inv : Invocation) (j : json) :
  nth_error (tasks s) i = Some {| invocation := inv; stage := ReadingJson |} ->
  handle E f s (JsonSettled i (Resolved j))
  = finish i inv (snd (applyResult E inv j s)) (fst (applyResult E inv j s)).
Proof.
  intros Hi. simpl. rewrite Hi. unfold afterJson.
  now destruct (applyResult E inv j s).
Qed.

(** On either screen, the end of a cycle of the run that is still live,
    failed or not, leaves exactly one timeout pending, of 1500 ms. *)
Lemma cycle_end_rearms (E : Engine) (f : ScreenFile) (s : Screen) (i eff : nat)
    (st : Stage) (e : Event) :
  Inv s ->
  nth_error (tasks s) i
    = Some {| invocation := CaptureAndSend eff; stage := st |} ->
  cleanup s = Some eff ->
  (exists msg, failure st i e = Some msg)
  \/ (exists j, st = ReadingJson /\ e = JsonSettled i (Resolved j)) ->
  let s' := step E f s e in
  timers s' =
    [{| timer_id := nextTimer s; timer_delay := 1500; timer_effect := eff |}]
  /\ detectionLoopRef s' = Some (nextTimer s)
  /\ isDetecting (loop s') = isDetecting (loop s).
Proof.
  intros [F T Q] Hi Hc [[msg Hf] | (j & -> & ->)] s'; unfold s'.
  - destruct (@failure_handle E f s i _ st e msg Hi Hf) as (m & _ & Hh & Hne1 & Hne2).
    rewrite step_quiet, Hh by trivial.
    destruct (@finish_rearms i eff st (Some m) s F T Hi Hc) as (H1 & _ & H3).
    repeat split; trivial.
    now destruct (finish_fields i (CaptureAndSend eff) (Some m) s)
      as (_ & _ & _ & _ & _ & -> & _).
  - rewrite step_quiet by (trivial; discriminate).
    rewrite (@handle_body E f s i _ j Hi).
    destruct (@applyResult_inv 1 E (CaptureAndSend eff) j s F T) as (F' & T' & Hts).
    destruct (applyResult_fields E (CaptureAndSend eff) j s) as (Hc' & Hn & Hd).
    set (s1 := fst (applyResult E (CaptureAndSend eff) j s)) in *.
    set (thrown := snd (applyResult E (CaptureAndSend eff) j s)).
    destruct (@finish_rearms i eff ReadingJson thrown s1 F' T')
      as (H1 & _ & H3); try congruence.
    rewrite Hn in *. repeat split; trivial.
    destruct (finish_fields i (CaptureAndSend eff) thrown s1)
      as (_ & _ & _ & _ & _ & -> & _). exact Hd.
Qed.

(** While detection is on, the call suspended on the detection screen
    belongs to the live run. *)
Lemma tabs_live_owner (s : Screen) (i eff : nat) (st : Stage) :
  Inv s -> TabsInv s -> isDetecting (loop s) = true ->
  nth_error (tasks s) i
    = Some {| invocation := CaptureAndSend eff; stage := st |} ->
  cleanup s = Some eff.
Proof.
  intros [F T [Hd Hg]] H Hdet Hi.
  destruct (cleanup s) as [eff'|] eqn:Hc.
  - destruct (@single_task s i _ H Hi) as [Hts _].
    unfold TabsInv in H. rewrite Hts in H.
    destruct H as (_ & _ & eff0 & Hinv & Hown). simpl in Hinv.
    injection Hinv as <-. now rewrite (Hown _ Hc).
  - exfalso. apply (frame_deps F); [|exact Hc].
    now rewrite Hd, Hdet, (Hg Hdet).
Qed.

(** C4.  On the detection screen, when a cycle fails (the camera or the
    transport rejects, the status is not 2xx, the body cannot be read)
    while detection is on, detection stays on and exactly one timeout is
    pending afterwards, armed by one [setTimeout] of 1500 ms for the same
    run of the loop; a cycle whose body arrives leaves the same single
    timeout. *)
Theorem failure_rearms (E : Engine) (trace : list Event) (i eff : nat)
    (st : Stage) (e : Event) (msg : jsstring) :
  let s := run E TabsIndex trace in
  nth_error (tasks s) i
    = Some {| invocation := CaptureAndSend eff; stage := st |} ->
  failure st i e = Some msg ->
  isDetecting (loop s) = true ->
  let s' := step E TabsIndex s e in
  let t := {| timer_id := nextTimer s; timer_delay := 1500; timer_effect := eff |} in
  isDetecting (loop s') = true
  /\ timers s' = [t]
  /\ calls s' = SetTimeout (nextTimer s) 1500 :: calls s
  /\ (st = ReadingJson -> forall j,
        timers (step E TabsIndex s (JsonSettled i (Resolved j))) = [t]).
Proof.
  intros s Hi Hf Hdet s' t.
  pose proof (run_inv E TabsIndex trace) as I.
  pose proof (run_tabs E trace) as H. fold s in I, H.
  pose proof (@tabs_live_owner s i eff st I H Hdet Hi) as Hc.
  destruct (@cycle_end_rearms E TabsIndex s i eff st e I Hi Hc)
    as (H1 & _ & H3); [left; now exists msg|].
  fold s' in H1, H3. repeat split; trivial; try congruence.
  - unfold s'. destruct I as [F T Q].
    destruct (@failure_handle E TabsIndex s i _ st e msg Hi Hf)
      as (m & _ & Hh & Hne1 & Hne2).
    rewrite step_quiet, Hh by trivial.
    now destruct (@finish_rearms i eff st (Some m) s F T Hi Hc) as (_ & ? & _).
  - intros -> j.
    now destruct (@cycle_end_rearms E TabsIndex s i eff ReadingJson
                    (JsonSettled i (Resolved j)) I Hi Hc) as (? & _);
      [right; now exists j|].
Qed.

(** [failure_rearms] at a first cycle whose body cannot be read. *)
Lemma failure_rearms_witness :
  let s := run engine TabsIndex (mounted ++ poll) in
  let e := JsonSettled 0 (Rejected (Some (lit "JSON Parse error"))) in
  let s' := step engine TabsIndex s e in
  let t := {| timer_id := nextTimer s; timer_delay := 1500; timer_effect := 0 |} in
  isDetecting (loop s') = true
  /\ timers s' = [t]
  /\ calls s' = SetTimeout (nextTimer s) 1500 :: calls s
  /\ (ReadingJson = ReadingJson -> forall j,
        timers (step engine TabsIndex s (JsonSettled 0 (Resolved j))) = [t]).
Proof.
  apply (@failure_rearms engine (mounted ++ poll) 0 0 ReadingJson
           (JsonSettled 0 (Rejected (Some (lit "JSON Parse error"))))
           (lit "JSON Parse error"));
    reflexivity.
Defined.

(** On the detection screen the results change only in a step that ends
    the cycle. *)
Lemma busy_step_results (E : Engine) (s : Screen) (e : Event) :
  Inv s -> TabsInv s -> busy (step E TabsIndex s e) = true ->
  detections (loop (step E TabsIndex s e)) = detections (loop s)
  /\ alertText (loop (step E TabsIndex s e)) = alertText (loop s).
Proof.
  intros I H Hb. destruct (delivers_body e) eqn:He.
  - destruct e as [| |q|g|node|id|i r|i r|i [j|m]]; try discriminate.
    pose proof I as [F T Q].
    rewrite step_quiet in * by (trivial; discriminate).
    destruct (nth_error (tasks s) i) as [[inv st]|] eqn:Hi.
    + destruct st; try (simpl; rewrite Hi; now split).
      exfalso. rewrite (@handle_body E TabsIndex s i inv j Hi) in Hb.
      destruct (@single_task s i _ H Hi) as [Hts ->].
      destruct (@applyResult_inv 1 E inv j s F T) as (_ & _ & Hts').
      unfold busy in Hb.
      destruct (finish_fields 0 inv (snd (applyResult E inv j s))
                  (fst (applyResult E inv j s))) as (Hfin & _).
      rewrite Hfin, Hts', Hts in Hb. discriminate.
    + simpl. rewrite Hi. now split.
  - now apply step_results.
Qed.

Lemma stays_busy_results (E : Engine) (trace : list Event) (s : Screen) :
  Inv s -> TabsInv s -> stays_busy E TabsIndex s trace = true ->
  detections (loop (run_from E TabsIndex s trace)) = detections (loop s)
  /\ alertText (loop (run_from E TabsIndex s trace)) = alertText (loop s).
Proof.
  revert s. induction trace as [|e trace IH]; intros s I H Hb; simpl.
  - now split.
  - simpl in Hb. apply andb_prop in Hb as [Hb1 Hb2].
    destruct (busy_step_results E e I H Hb1) as [<- <-].
    apply IH; trivial; [now apply step_inv | now apply step_tabs].
Qed.

(** C5.  On the detection screen, take a cycle from the step that starts
    it, through any events during which it stays in flight, to the event
    that makes it fail (the transport rejects or the status is not 2xx;
    the same holds when the camera rejects or the body cannot be read):
    afterwards the error is the failure message, the detection list and
    the alert text are what they were before the cycle started, nothing
    is being sent and no call is suspended. *)
Theorem failed_cycle_frame (E : Engine) (before during : list Event)
    (start e : Event) (i : nat) (inv : Invocation) (st : Stage) (msg : jsstring) :
  let s0 := run E TabsIndex before in
  let s1 := step E TabsIndex s0 start in
  let s2 := run_from E TabsIndex s1 during in
  busy s0 = false -> busy s1 = true ->
  stays_busy E TabsIndex s1 during = true ->
  nth_error (tasks s2) i = Some {| invocation := inv; stage := st |} ->
  failure st i e = Some msg ->
  let s3 := step E TabsIndex s2 e in
  error (loop s3) = msg
  /\ detections (loop s3) = detections (loop s0)
  /\ alertText (loop s3) = alertText (loop s0)
  /\ isSending (loop s3) = false
  /\ busy s3 = false.
Proof.
  intros s0 s1 s2 _ Hb1 Hb2 Hi Hf s3.
  pose proof (run_inv E TabsIndex before) as I0.
  pose proof (run_tabs E before) as H0. fold s0 in I0, H0.
  pose proof (step_inv E TabsIndex start I0) as I1.
  pose proof (step_tabs E start I0 H0) as H1. fold s1 in I1, H1.
  destruct (busy_step_results E start I0 H0 Hb1) as [Hd1 Ha1].
  destruct (stays_busy_results E during I1 H1 Hb2) as [Hd2 Ha2].
  fold s1 in Hd1, Ha1. fold s2 in Hd2, Ha2.
  pose proof (run_from_inv E TabsIndex during I1) as I2.
  pose proof (run_from_tabs E during I1 H1) as H2. fold s2 in I2, H2.
  destruct (@failure_handle E TabsIndex s2 i inv st e msg Hi Hf)
    as (m & Hm & Hh & Hne1 & Hne2).
  unfold s3. destruct I2 as [F2 T2 Q2].
  rewrite step_quiet, Hh by trivial.
  destruct (finish_fields i inv (Some m) s2) as (Hts & Hs & He & Hd & Ha & _).
  destruct (@single_task s2 i _ H2 Hi) as [Hts2 ->].
  unfold busy. rewrite Hts, Hs, He, Hd, Ha, Hts2. simpl.
  repeat split; congruence.
Qed.

(** [failed_cycle_frame] at a second cycle, started by the timeout of the
    first, whose request is answered with status 503: the detection and
    the alert of the first cycle stay. *)
Lemma failed_cycle_frame_witness :
  let s0 := run engine TabsIndex one_cycle in
  let s1 := step engine TabsIndex s0 (TimerFires 1) in
  let s2 := run_from engine TabsIndex s1
              [PictureSettled 0 (Resolved (lit "file:///photo2.jpg"))] in
  let s3 := step engine TabsIndex s2 (FetchSettled 0 (Resolved 503%N)) in
  (detections (loop s0) = [defaultDetection]
   /\ alertText (loop s0) = JStr (lit "Chair ahead"))
  /\ error (loop s3) = lit "Server error: 503"
  /\ detections (loop s3) = detections (loop s0)
  /\ alertText (loop s3) = alertText (loop s0)
  /\ isSending (loop s3) = false
  /\ busy s3 = false.
Proof.
  split; [split; reflexivity|].
  apply (@failed_cycle_frame engine one_cycle
           [PictureSettled 0 (Resolved (lit "file:///photo2.jpg"))]
           (TimerFires 1) (FetchSettled 0 (Resolved 503%N)) 0
           (CaptureAndSend 0) Fetching (lit "Server error: 503"));
    reflexivity.
Defined.

(** *** One cycle at a time (C2) *)

(** While detection is off a commit starts nothing. *)
Lemma commit_idle (s : Screen) :
  Frame s -> isDetecting (loop s) = false ->
  isDetecting (loop (commit s)) = false
  /\ tasks (commit s) = tasks s
  /\ isSending (loop (commit s)) = isSending (loop s)
  /\ error (loop (commit s)) = error (loop s)
  /\ detections (loop (commit s)) = detections (loop s)
  /\ alertText (loop (commit s)) = alertText (loop s)
  /\ cycle_captures (commit s) = cycle_captures s.
Proof.
  intros F Hd. destruct (guard_same s) eqn:Hsame.
  - unfold guard_same in Hsame. unfold commit. rewrite Hsame. auto 10.
  - destruct (commit_fields s Hsame) as (_ & _ & Hi).
    rewrite Hd in Hi. rewrite andb_false_r in Hi.
    destruct (commit_clear F Hsame) as (H1 & _ & _ & H4 & H5 & H6 & H7 & H8).
    { now rewrite Hd. }
    auto 10.
Qed.

Lemma flush_idle (s : Screen) :
  Frame s -> Token 1 s -> isDetecting (loop s) = false ->
  isDetecting (loop (flush s)) = false
  /\ tasks (flush s) = tasks s
  /\ isSending (loop (flush s)) = isSending (loop s)
  /\ error (loop (flush s)) = error (loop s)
  /\ detections (loop (flush s)) = detections (loop s)
  /\ alertText (loop (flush s)) = alertText (loop s)
  /\ cycle_captures (flush s) = cycle_captures s.
Proof.
  intros F T Hd. unfold flush.
  assert (R : Ready s) by (intros H; congruence).
  destruct (commit_inv F T R) as [F1 _].
  destruct (commit_idle F Hd) as (Hd1 & <- & <- & <- & <- & <- & <-).
  now apply commit_idle.
Qed.

(** C2.  On the detection screen, after any sequence of events, at most one
    call is suspended on the camera or the backend; and when a call is in
    flight or the camera is unavailable, an event that invokes a cycle
    leaves the suspended calls, [isSending], the error, the detection list
    and the alert text as they were. *)
Theorem single_flight (E : Engine) (trace : list Event) :
  let s := run E TabsIndex trace in
  List.length (tasks s) <= 1
  /\ forall e, invokes_cycle e = true ->
       isSending (loop s) = true \/ cameraRef s = false ->
       let s' := step E TabsIndex s e in
       tasks s' = tasks s
       /\ isSending (loop s') = isSending (loop s)
       /\ error (loop s') = error (loop s)
       /\ detections (loop s') = detections (loop s)
       /\ alertText (loop s') = alertText (loop s).
Proof.
  intros s.
  pose proof (run_inv E TabsIndex trace) as I.
  pose proof (run_tabs E trace) as H. fold s in I, H.
  split.
  - unfold TabsInv in H. destruct (tasks s) as [|t0 [|t1 ts]]; simpl; lia.
  - intros e He Hguard s'. unfold s'. pose proof I as [F T Q].
    destruct e as [| |q|g|node|id|i r|i r|i r]; try discriminate.
    + (* the toggle button *)
      unfold step. simpl.
      destruct (cameraRef s && granted s
                && negb (isSending (loop s) && negb (isDetecting (loop s))))
        eqn:Hen.
      * apply andb_prop in Hen as [[Hcam _]%andb_prop Hon].
        destruct Hguard as [Hs|Hno]; [|congruence].
        rewrite Hs in Hon. simpl in Hon. rewrite negb_involutive in Hon.
        rewrite Hon. simpl.
        destruct (@flush_idle (setIsDetecting false s))
          as (_ & H1 & H2 & H3 & H4 & H5 & _); auto.
        now apply Frame_with_loop.
      * unfold flush. rewrite !(Quiet_commit Q). auto.
    + (* a timeout fires *)
      rewrite step_quiet by (trivial; discriminate). simpl.
      destruct (find (timer_is id) (timers s)) as [t|] eqn:Hf; [|auto].
      destruct (fired_timer id F Hf) as (Hnil & Hc & Hne).
      destruct (timer_means_idle F T H Hne) as [_ Hs].
      destruct Hguard as [Hs'|Hno]; [congruence|].
      unfold runCycle, captureAndSend. simpl. rewrite (frame_live F Hc). simpl.
      rewrite Hno. simpl.
      match goal with |- context [resumeCycle ?a ?b] =>
        destruct (resumeCycle_fields a b) as (-> & -> & _) end.
      simpl. auto.
Qed.

Example no_camera_no_capture :
  let s := run engine TabsIndex (one_cycle ++ [CameraRef false]) in
  let s' := step engine TabsIndex s (TimerFires 1) in
  timers s = [{| timer_id := 1; timer_delay := 1500; timer_effect := 0 |}]
  /\ tasks s' = [] /\ loop s' = loop s
  /\ timers s' = [{| timer_id := 2; timer_delay := 1500; timer_effect := 0 |}].
Proof. vm_compute. repeat split; reflexivity. Qed.

(** *** Stopping (C3) *)

(** While detection is off, on either screen, nothing is pending and no run
    of the loop effect is live. *)
Lemma stopped_nothing_pending (s : Screen) :
  Inv s -> isDetecting (loop s) = false ->
  timers s = [] /\ cleanup s = None.
Proof.
  intros [F T [Hd _]] Hoff.
  assert (Hc : cleanup s = None).
  { destruct (cleanup s) eqn:Hc; trivial.
    assert (Hne : cleanup s <> None) by congruence.
    apply (frame_deps F) in Hne. rewrite Hd, Hoff in Hne. discriminate. }
  split; trivial.
  destruct (timers s) as [|t ts] eqn:Hts; trivial.
  destruct (@frame_timers s F t) as (_ & H & _); [rewrite Hts; now left|].
  congruence.
Qed.

Lemma handle_captures (E : Engine) (f : ScreenFile) (s : Screen) (e : Event) :
  (forall id, e <> TimerFires id) ->
  cycle_captures (handle E f s e) = cycle_captures s.
Proof.
  destruct e as [| |q|g|node|id|i r|i r|i r]; intros H;
    try (now destruct (H id));
    unfold cycle_captures; unfold_pieces; simpl; break_match; auto.
Qed.

(** While detection is off, an event other than the toggle button leaves it
    off and starts no cycle. *)
Lemma stopped_step (E : Engine) (f : ScreenFile) (s : Screen) (e : Event) :
  Inv s -> isDetecting (loop s) = false -> e <> PressToggle ->
  isDetecting (loop (step E f s e)) = false
  /\ cycle_captures (step E f s e) = cycle_captures s.
Proof.
  intros I Hoff Hne. pose proof I as [F T Q].
  destruct (stopped_nothing_pending I Hoff) as [Hts _].
  destruct (handle_inv E f e F T) as [F1 T1].
  assert (Hoff1 : isDetecting (loop (handle E f s e)) = false)
    by now rewrite handle_detecting.
  destruct (flush_idle F1 T1 Hoff1) as (H1 & _ & _ & _ & _ & _ & H7).
  unfold step. split; trivial. rewrite H7.
  destruct e as [| |q|g|node|id|i r|i r|i r];
    try (apply handle_captures; discriminate).
  simpl. now rewrite Hts.
Qed.

Lemma stopped_run (E : Engine) (f : ScreenFile) (rest : list Event) (s : Screen) :
  Inv s -> isDetecting (loop s) = false -> ~ In PressToggle rest ->
  isDetecting (loop (run_from E f s rest)) = false
  /\ cycle_captures (run_from E f s rest) = cycle_captures s.
Proof.
  revert s. induction rest as [|e rest IH]; intros s I Hoff Hnot; simpl.
  - now split.
  - assert (He : e <> PressToggle) by (intros ->; apply Hnot; now left).
    destruct (@stopped_step E f s e I Hoff He) as [Hoff' <-].
    apply IH; trivial; [now apply step_inv|].
    intros Hin. apply Hnot. now right.
Qed.

(** C3.  On either screen, press the toggle button while detection is on
    and the main view is shown, and let any events follow that do not
    press it again.  Detection is off from the press on; the press leaves
    the calls in flight in flight; at every later point no timeout is
    pending and no cycle has started since the press; and a cycle that was
    in flight still stores the detections of the body it receives, ends
    the sending and arms no timeout. *)
Theorem stop_is_final (E : Engine) (f : ScreenFile) (trace rest : list Event) :
  let s := run E f trace in
  isDetecting (loop s) = true -> cameraRef s = true ->
  ~ In PressToggle rest ->
  let s1 := step E f s PressToggle in
  let s2 := run_from E f s1 rest in
  tasks s1 = tasks s
  /\ isDetecting (loop s2) = false
  /\ timers s2 = []
  /\ cycle_captures s2 = cycle_captures s
  /\ forall i eff j ds,
       nth_error (tasks s2) i
         = Some {| invocation := CaptureAndSend eff; stage := ReadingJson |} ->
       parsedDetections E j = Ok ds ->
       let s3 := step E f s2 (JsonSettled i (Resolved j)) in
       detections (loop s3) = ds /\ isSending (loop s3) = false
       /\ timers s3 = [].
Proof.
  intros s Hon Hcam Hnot s1 s2.
  pose proof (run_inv E f trace) as I. fold s in I.
  pose proof I as [F T Q].
  assert (Hh : handle E f s PressToggle = setIsDetecting false s).
  { simpl. rewrite Hcam, (frame_view F Hcam), Hon.
    now rewrite andb_false_r. }
  destruct (@flush_idle (setIsDetecting false s))
    as (Hoff1 & Hts1 & _ & _ & _ & _ & Hcap1); auto.
  { now apply Frame_with_loop. }
  assert (Hs1 : s1 = flush (setIsDetecting false s)).
  { unfold s1, step. now rewrite Hh. }
  rewrite <- Hs1 in Hoff1, Hts1, Hcap1.
  pose proof (@step_inv E f s PressToggle I) as I1. fold s1 in I1.
  destruct (@stopped_run E f rest s1 I1 Hoff1 Hnot) as [Hoff2 Hcap2].
  fold s2 in Hoff2, Hcap2.
  pose proof (@run_from_inv E f rest s1 I1) as I2. fold s2 in I2.
  destruct (stopped_nothing_pending I2 Hoff2) as [Hts2 _].
  split; [exact Hts1|]. split; [trivial|]. split; [trivial|].
  split; [now rewrite Hcap2, Hcap1|].
  intros i eff j ds Hi Hp s3. unfold s3.
  pose proof I2 as [_ _ Q2].
  destruct (@body_applied E f s2 i eff j ds Q2 Hi Hp) as (Hd & _ & _ & Hs & _).
  split; [trivial|]. split; [trivial|].
  assert (Hne : JsonSettled i (Resolved j) <> PressToggle) by discriminate.
  destruct (@stopped_step E f s2 (JsonSettled i (Resolved j)) I2 Hoff2 Hne)
    as [Hoff3 _].
  now destruct (stopped_nothing_pending
                  (@step_inv E f s2 (JsonSettled i (Resolved j)) I2) Hoff3).
Qed.

(** [stop_is_final] at a stop while the first cycle awaits its response,
    which arrives afterwards. *)
Lemma stop_is_final_witness :
  let s := run engine TabsIndex
             (mounted ++ [PressToggle;
                          PictureSettled 0 (Resolved (lit "file:///photo.jpg"))]) in
  let rest := [FetchSettled 0 (Resolved 200%N)] in
  let s1 := step engine TabsIndex s PressToggle in
  let s2 := run_from engine TabsIndex s1 rest in
  tasks s1 = tasks s
  /\ isDetecting (loop s2) = false
  /\ timers s2 = []
  /\ cycle_captures s2 = cycle_captures s
  /\ forall i eff j ds,
       nth_error (tasks s2) i
         = Some {| invocation := CaptureAndSend eff; stage := ReadingJson |} ->
       parsedDetections engine j = Ok ds ->
       let s3 := step engine TabsIndex s2 (JsonSettled i (Resolved j)) in
       detections (loop s3) = ds /\ isSending (loop s3) = false
       /\ timers s3 = [].
Proof.
  apply (@stop_is_final engine TabsIndex
           (mounted ++ [PressToggle;
                        PictureSettled 0 (Resolved (lit "file:///photo.jpg"))])
           [FetchSettled 0 (Resolved 200%N)]).
  - reflexivity.
  - reflexivity.
  - intros [H|[]]. discriminate H.
Defined.

(** *** The smart query and the loop (C10) *)

(** While something is being sent the smart query button does nothing:
    the handler of the latest render sees [isSending]. *)
Lemma smart_query_guarded (E : Engine) (s : Screen) :
  isSending (loop s) = true -> handle E AppIndex s PressSmartQuery = s.
Proof.
  intros Hs. simpl. rewrite Hs. now rewrite andb_false_r.
Qed.

(** C10 fails on the code.  The smart query is in flight, [isSending] is
    true, and the timeout of the loop fires: [runCycle] calls the
    [captureAndSend] of the render in which detection was started, whose
    [isSending] is still false, so a second picture is requested while
    the first call is suspended. *)
Theorem cycle_overlaps_smart_query (E : Engine) :
  let s := run E AppIndex query_during_wait in
  let s' := step E AppIndex s (TimerFires 1) in
  isSending (loop s) = true
  /\ tasks s = [{| invocation := HandleSmartQuery []; stage := TakingPicture |}]
  /\ tasks s' = [{| invocation := HandleSmartQuery []; stage := TakingPicture |};
                 {| invocation := CaptureAndSend 0; stage := TakingPicture |}]
  /\ firstn 2 (calls s') = [TakePicture (CaptureAndSend 0);
                            TakePicture (HandleSmartQuery [])].
Proof. vm_compute. repeat split; reflexivity. Qed.
